(** * Hikari: the stateful event factory

    A shallow embedding of [hikari/impl/stateful_event_factory.py]
    (class [StatefulEventFactoryImpl]) and of the cache it drives.

    The handlers are written in a small writer-and-exception monad: every
    call on [self.app.cache] and every [self.dispatch] is recorded, in
    program order, as an [Effect]; an exception raised by the entity
    factory stops the handler.  The effects are then interpreted on a
    [World] (the cache mirror and the events handed to the sink). *)

From stdpp Require Import gmap strings list fin_maps.
From Stdlib Require Import ZArith.

Open Scope Z_scope.
Set Warnings "-register-all".

(** ** Wire data *)

(** [hikari.utilities.snowflake.Snowflake]: a Python [int]. *)
Abbreviation Snowflake := Z (only parsing).

(** [data_binding.JSONObject] is a [dict] from [str] to JSON values.  A
    float is kept as its IEEE 754 binary64 bit pattern. *)
Inductive JSON : Type :=
  | JNull
  | JBool (b : bool)
  | JInt (n : Z)
  | JFloat (bits : Z)
  | JString (s : string)
  | JArray (items : list JSON)
  | JObject (fields : gmap string JSON).

Abbreviation JSONObject := (gmap string JSON) (only parsing).

(** Python truth value of a JSON value, as tested by [if x:]. *)
Definition truthy (v : JSON) : bool :=
  match v with
  | JNull => false
  | JBool b => b
  | JInt n => negb (n =? 0)
  | JFloat bits => negb (Z.land bits (2 ^ 63 - 1) =? 0)
  | JString s => match s with EmptyString => false | String _ _ => true end
  | JArray items => match items with [] => false | _ :: _ => true end
  | JObject fields => negb (bool_decide (fields = ∅))
  end.

(** [payload.get(key, default)]. *)
Definition get (payload : JSONObject) (key : string) (default : JSON) : JSON :=
  match payload !! key with
  | Some v => v
  | None => default
  end.

(** A Python [dict] keyed by identity, in insertion order. *)
Abbreviation dict V := (list (Snowflake * V)) (only parsing).

Definition keys {V} (d : dict V) : list Snowflake := map fst d.
Definition values {V} (d : dict V) : list V := map snd d.

(** ** Entities

    The models of [hikari.models], cut down to the identity of each record,
    the guild it is scoped to and one field of content. *)

Abbreviation Shard := Z (only parsing).

Record OwnUser := { ou_id : Snowflake; ou_username : string }.

Record User := { u_id : Snowflake; u_username : string }.

Record Guild := { g_id : Snowflake; g_name : string }.

Record UnavailableGuild := { ug_id : Snowflake }.

Record GuildChannel :=
  { ch_id : Snowflake; ch_guild_id : Snowflake; ch_name : string }.

Record KnownCustomEmoji :=
  { em_id : Snowflake; em_guild_id : Snowflake; em_name : string }.

Record Role :=
  { ro_id : Snowflake; ro_guild_id : Snowflake; ro_name : string }.

Record Member :=
  { mb_user : User; mb_guild_id : Snowflake; mb_nickname : option string }.

Record MemberPresence :=
  { pr_user_id : Snowflake; pr_guild_id : Snowflake; pr_status : string }.

Record VoiceState :=
  { vs_user_id : Snowflake; vs_guild_id : Snowflake;
    vs_channel_id : option Snowflake }.

(** What the cache needs of a record it files under a guild: the guild it
    belongs to and its identity inside that guild. *)
Class Child (A : Type) := {
  guild_id_of : A → Snowflake;
  key_of : A → Snowflake
}.

#[export] Instance GuildChannel_Child : Child GuildChannel :=
  {| guild_id_of := ch_guild_id; key_of := ch_id |}.
#[export] Instance KnownCustomEmoji_Child : Child KnownCustomEmoji :=
  {| guild_id_of := em_guild_id; key_of := em_id |}.
#[export] Instance Role_Child : Child Role :=
  {| guild_id_of := ro_guild_id; key_of := ro_id |}.
#[export] Instance Member_Child : Child Member :=
  {| guild_id_of := mb_guild_id; key_of := fun m => u_id (mb_user m) |}.
#[export] Instance MemberPresence_Child : Child MemberPresence :=
  {| guild_id_of := pr_guild_id; key_of := pr_user_id |}.
#[export] Instance VoiceState_Child : Child VoiceState :=
  {| guild_id_of := vs_guild_id; key_of := vs_user_id |}.

(** ** Events *)

Module ReadyEvent.
Record t := {
  shard : Shard;
  my_user : OwnUser;
  unavailable_guilds : dict UnavailableGuild;
  session_id : string
}.
End ReadyEvent.

Module GuildCreateEvent.
Record t := {
  guild : Guild;
  channels : dict GuildChannel;
  emojis : dict KnownCustomEmoji;
  roles : dict Role;
  members : dict Member;
  presences : dict MemberPresence;
  voice_states : dict VoiceState
}.
End GuildCreateEvent.

Module GuildUpdateEvent.
Record t := {
  guild : Guild;
  emojis : dict KnownCustomEmoji;
  roles : dict Role
}.
End GuildUpdateEvent.

Module GuildUnavailableEvent.
Record t := { id : Snowflake }.
End GuildUnavailableEvent.

Module GuildLeaveEvent.
Record t := { id : Snowflake }.
End GuildLeaveEvent.

(** The event kinds whose handler is the one line
    [await self.dispatch(self.app.entity_factory.deserialize_X_event(payload))];
    the constructor is the [X] of the factory method. *)
Inductive DeltaKind : Type :=
  | channel_create | channel_update | channel_delete | channel_pins_update
  | guild_ban_add | guild_ban_remove
  | guild_emojis_update | guild_integrations_update
  | guild_member_add | guild_member_remove | guild_member_update
  | guild_role_create | guild_role_update | guild_role_delete
  | invite_create | invite_delete
  | message_create | message_update | message_delete | message_delete_bulk
  | message_reaction_add | message_reaction_remove
  | message_reaction_remove_all | message_reaction_remove_emoji
  | presence_update | typing_start | own_user_update
  | voice_state_update | voice_server_update | webhook_update.

(** The record carried by such an event. *)
Inductive Entity : Type :=
  | AChannel (c : GuildChannel)
  | ARole (r : Role)
  | AnEmoji (e : KnownCustomEmoji)
  | AMember (m : Member)
  | APresence (p : MemberPresence)
  | AVoiceState (v : VoiceState)
  | AnOwnUser (u : OwnUser)
  | Removed (guild_id : Snowflake) (child_id : Snowflake)
  | Other (data : JSONObject).

Inductive Event : Type :=
  | ConnectedEvent (shard : Shard)
  | DisconnectedEvent (shard : Shard)
  | ResumedEvent (shard : Shard)
  | Ready (e : ReadyEvent.t)
  | GuildCreate (e : GuildCreateEvent.t)
  | GuildUpdate (e : GuildUpdateEvent.t)
  | GuildUnavailable (e : GuildUnavailableEvent.t)
  | GuildLeave (e : GuildLeaveEvent.t)
  | Delta (kind : DeltaKind) (subject : Entity).

(** ** Effects of a handler *)

(** The methods of [self.app.cache] the handlers call. *)
Inductive CacheCall : Type :=
  | update_me (user : OwnUser)
  | set_initial_unavailable_guilds (guild_ids : list Snowflake)
  | update_guild (guild : Guild)
  | set_guild_availability (guild_id : Snowflake) (is_available : bool)
  | delete_guild (guild_id : Snowflake)
  | clear_guild_channels (guild_id : Snowflake)
  | set_guild_channel (channel : GuildChannel)
  | clear_emojis (guild_id : Snowflake)
  | set_emoji (emoji : KnownCustomEmoji)
  | clear_roles (guild_id : Snowflake)
  | set_role (role : Role)
  | clear_members (guild_id : Snowflake)
  | set_member (member : Member)
  | clear_presences (guild_id : Snowflake)
  | set_presence (presence : MemberPresence)
  | set_voice_state (voice_state : VoiceState).

Inductive Effect : Type :=
  | Cache (call : CacheCall)
  | Dispatch (event : Event).

Definition is_cache (e : Effect) : bool :=
  match e with Cache _ => true | Dispatch _ => false end.

Definition is_dispatch (e : Effect) : bool :=
  match e with Cache _ => false | Dispatch _ => true end.

(** The cache calls of a trace, in order. *)
Definition cache_calls (t : list Effect) : list CacheCall :=
  omap (fun e => match e with Cache c => Some c | Dispatch _ => None end) t.

(** The events dispatched by a trace, in order. *)
Definition dispatched (t : list Effect) : list Event :=
  omap (fun e => match e with Dispatch ev => Some ev | Cache _ => None end) t.

(** ** The handler monad *)

Abbreviation Exception := string (only parsing).

Inductive Result (A : Type) : Type :=
  | Ok (a : A)
  | Raise (e : Exception).
Arguments Ok {A} a.
Arguments Raise {A} e.

(** A computation: the effects performed so far, and how it ended. *)
Definition M (A : Type) : Type := (list Effect * Result A)%type.

#[export] Instance M_ret : MRet M := fun A a => ([], Ok a).

#[export] Instance M_bind : MBind M := fun A B f m =>
  match m with
  | (t, Ok a) => let '(t', r) := f a in (t ++ t', r)
  | (t, Raise e) => (t, Raise e)
  end.

(** A call into the entity factory: no effect, may raise. *)
Definition decode {A} (r : Result A) : M A := ([], r).

(** A call on [self.app.cache]. *)
Definition cache (call : CacheCall) : M unit := ([Cache call], Ok tt).

(** [await self.dispatch(event)]. *)
Definition dispatch (event : Event) : M unit := ([Dispatch event], Ok tt).

(** [for x in xs: body(x)]. *)
Fixpoint for_each {A} (xs : list A) (body : A → M unit) : M unit :=
  match xs with
  | [] => mret tt
  | x :: rest => body x ;; for_each rest body
  end.

Definition trace {A} (m : M A) : list Effect := fst m.
Definition outcome {A} (m : M A) : Result A := snd m.

(** ** The entity factory

    [self.app.entity_factory] is a collaborator of the class: a stateless
    decoder, one method per event, which either returns the decoded event
    or raises.  The thirty methods behind the one-line handlers are the
    family [deserialize_event]. *)
Record EntityFactory := {
  deserialize_ready_event : Shard → JSONObject → Result ReadyEvent.t;
  deserialize_guild_create_event : JSONObject → Result GuildCreateEvent.t;
  deserialize_guild_update_event : JSONObject → Result GuildUpdateEvent.t;
  deserialize_guild_unavailable_event :
    JSONObject → Result GuildUnavailableEvent.t;
  deserialize_guild_leave_event : JSONObject → Result GuildLeaveEvent.t;
  deserialize_event : DeltaKind → JSONObject → Result Entity
}.

(** ** [StatefulEventFactoryImpl] *)

Section StatefulEventFactoryImpl.

Variable entity_factory : EntityFactory.

Definition on_connected (shard : Shard) (_ : JSONObject) : M unit :=
  dispatch (ConnectedEvent shard).

Definition on_disconnected (shard : Shard) (_ : JSONObject) : M unit :=
  dispatch (DisconnectedEvent shard).

Definition on_ready (shard : Shard) (payload : JSONObject) : M unit :=
  event ← decode (deserialize_ready_event entity_factory shard payload);
  cache (update_me (ReadyEvent.my_user event));;
  cache (set_initial_unavailable_guilds
           (keys (ReadyEvent.unavailable_guilds event)));;
  dispatch (Ready event).

Definition on_resumed (shard : Shard) (_ : JSONObject) : M unit :=
  dispatch (ResumedEvent shard).

(** The body shared by the one-line handlers. *)
Definition forward (kind : DeltaKind) (payload : JSONObject) : M unit :=
  event ← decode (deserialize_event entity_factory kind payload);
  dispatch (Delta kind event).

Definition on_channel_create (_ : Shard) := forward channel_create.
Definition on_channel_update (_ : Shard) := forward channel_update.
Definition on_channel_delete (_ : Shard) := forward channel_delete.
Definition on_channel_pins_update (_ : Shard) := forward channel_pins_update.

Definition on_guild_create (_ : Shard) (payload : JSONObject) : M unit :=
  event ← decode (deserialize_guild_create_event entity_factory payload);
  cache (update_guild (GuildCreateEvent.guild event));;

  cache (clear_guild_channels (g_id (GuildCreateEvent.guild event)));;
  for_each (values (GuildCreateEvent.channels event))
    (fun channel => cache (set_guild_channel channel));;

  cache (clear_emojis (g_id (GuildCreateEvent.guild event)));;
  for_each (values (GuildCreateEvent.emojis event))
    (fun emoji => cache (set_emoji emoji));;

  cache (clear_roles (g_id (GuildCreateEvent.guild event)));;
  for_each (values (GuildCreateEvent.roles event))
    (fun role => cache (set_role role));;

  cache (clear_members (g_id (GuildCreateEvent.guild event)));;
  for_each (values (GuildCreateEvent.members event))
    (fun member => cache (set_member member));;

  cache (clear_presences (g_id (GuildCreateEvent.guild event)));;
  for_each (values (GuildCreateEvent.presences event))
    (fun presence => cache (set_presence presence));;

  for_each (values (GuildCreateEvent.voice_states event))
    (fun voice_state => cache (set_voice_state voice_state));;

  dispatch (GuildCreate event).

Definition on_guild_update (_ : Shard) (payload : JSONObject) : M unit :=
  event ← decode (deserialize_guild_update_event entity_factory payload);
  cache (update_guild (GuildUpdateEvent.guild event));;

  cache (clear_roles (g_id (GuildUpdateEvent.guild event)));;
  for_each (values (GuildUpdateEvent.roles event))
    (fun role => cache (set_role role));;

  cache (clear_emojis (g_id (GuildUpdateEvent.guild event)));;
  for_each (values (GuildUpdateEvent.emojis event))
    (fun emoji => cache (set_emoji emoji));;

  dispatch (GuildUpdate event).

Definition on_guild_delete (_ : Shard) (payload : JSONObject) : M unit :=
  event ←
    (if truthy (get payload "unavailable" (JBool false)) then
       event ← decode
         (deserialize_guild_unavailable_event entity_factory payload);
       let guild := {| ug_id := GuildUnavailableEvent.id event |} in
       cache (set_guild_availability (ug_id guild) false);;
       mret (GuildUnavailable event)
     else
       event ← decode (deserialize_guild_leave_event entity_factory payload);
       cache (delete_guild (GuildLeaveEvent.id event));;
       mret (GuildLeave event));
  dispatch event.

Definition on_guild_ban_add (_ : Shard) := forward guild_ban_add.
Definition on_guild_ban_remove (_ : Shard) := forward guild_ban_remove.
Definition on_guild_emojis_update (_ : Shard) := forward guild_emojis_update.
Definition on_guild_integrations_update (_ : Shard) :=
  forward guild_integrations_update.
Definition on_guild_member_add (_ : Shard) := forward guild_member_add.
Definition on_guild_member_remove (_ : Shard) := forward guild_member_remove.
Definition on_guild_member_update (_ : Shard) := forward guild_member_update.

(** The body is a comment: the method returns [None] at once. *)
Definition on_guild_members_chunk (_ : Shard) (_ : JSONObject) : M unit :=
  mret tt.

Definition on_guild_role_create (_ : Shard) := forward guild_role_create.
Definition on_guild_role_update (_ : Shard) := forward guild_role_update.
Definition on_guild_role_delete (_ : Shard) := forward guild_role_delete.
Definition on_invite_create (_ : Shard) := forward invite_create.
Definition on_invite_delete (_ : Shard) := forward invite_delete.
Definition on_message_create (_ : Shard) := forward message_create.
Definition on_message_update (_ : Shard) := forward message_update.
Definition on_message_delete (_ : Shard) := forward message_delete.
Definition on_message_delete_bulk (_ : Shard) := forward message_delete_bulk.
Definition on_message_reaction_add (_ : Shard) :=
  forward message_reaction_add.
Definition on_message_reaction_remove (_ : Shard) :=
  forward message_reaction_remove.
Definition on_message_reaction_remove_all (_ : Shard) :=
  forward message_reaction_remove_all.
Definition on_message_reaction_remove_emoji (_ : Shard) :=
  forward message_reaction_remove_emoji.
Definition on_presence_update (_ : Shard) := forward presence_update.
Definition on_typing_start (_ : Shard) := forward typing_start.
Definition on_user_update (_ : Shard) := forward own_user_update.
Definition on_voice_state_update (_ : Shard) := forward voice_state_update.
Definition on_voice_server_update (_ : Shard) := forward voice_server_update.
Definition on_webhooks_update (_ : Shard) := forward webhook_update.

(** The methods of the class, by gateway event name. *)
Inductive EventName : Type :=
  | CONNECTED | DISCONNECTED | READY | RESUMED
  | GUILD_CREATE | GUILD_UPDATE | GUILD_DELETE | GUILD_MEMBERS_CHUNK
  | DELTA (kind : DeltaKind).

Definition delta_handler (kind : DeltaKind)
  : Shard → JSONObject → M unit :=
  match kind with
  | channel_create => on_channel_create
  | channel_update => on_channel_update
  | channel_delete => on_channel_delete
  | channel_pins_update => on_channel_pins_update
  | guild_ban_add => on_guild_ban_add
  | guild_ban_remove => on_guild_ban_remove
  | guild_emojis_update => on_guild_emojis_update
  | guild_integrations_update => on_guild_integrations_update
  | guild_member_add => on_guild_member_add
  | guild_member_remove => on_guild_member_remove
  | guild_member_update => on_guild_member_update
  | guild_role_create => on_guild_role_create
  | guild_role_update => on_guild_role_update
  | guild_role_delete => on_guild_role_delete
  | invite_create => on_invite_create
  | invite_delete => on_invite_delete
  | message_create => on_message_create
  | message_update => on_message_update
  | message_delete => on_message_delete
  | message_delete_bulk => on_message_delete_bulk
  | message_reaction_add => on_message_reaction_add
  | message_reaction_remove => on_message_reaction_remove
  | message_reaction_remove_all => on_message_reaction_remove_all
  | message_reaction_remove_emoji => on_message_reaction_remove_emoji
  | presence_update => on_presence_update
  | typing_start => on_typing_start
  | own_user_update => on_user_update
  | voice_state_update => on_voice_state_update
  | voice_server_update => on_voice_server_update
  | webhook_update => on_webhooks_update
  end.

Definition handler (name : EventName) : Shard → JSONObject → M unit :=
  match name with
  | CONNECTED => on_connected
  | DISCONNECTED => on_disconnected
  | READY => on_ready
  | RESUMED => on_resumed
  | GUILD_CREATE => on_guild_create
  | GUILD_UPDATE => on_guild_update
  | GUILD_DELETE => on_guild_delete
  | GUILD_MEMBERS_CHUNK => on_guild_members_chunk
  | DELTA kind => delta_handler kind
  end.

End StatefulEventFactoryImpl.

(** ** The cache mirror

    [self.app.cache] is implemented outside this class.  Its state and its
    methods are modelled here from the specification of the Cache Mirror. *)

(** A child collection: guild identity, then child identity. *)
Abbreviation coll A := (gmap Snowflake (gmap Snowflake A)) (only parsing).

(** The children filed under one guild. *)
Definition children_of {A} (c : coll A) (g : Snowflake) : gmap Snowflake A :=
  default ∅ (c !! g).

(** Modelled from the spec: the cache primitive [set(parentKey, childKey,
    record)], which is missing from the sources: insert or overwrite, without
    affecting sibling children.  The parent and child keys are read off the
    record, as the handlers pass the record alone. *)
Definition coll_set `{Child A} (x : A) (c : coll A) : coll A :=
  <[guild_id_of x := <[key_of x := x]> (children_of c (guild_id_of x))]> c.

(** Modelled from the spec: the cache primitive [clear(parentKey,
    childKind)], which is missing from the sources: remove all children of
    one kind under the parent. *)
Definition coll_clear {A} (g : Snowflake) (c : coll A) : coll A := delete g c.

(** Modelled from the spec: the state of the Cache Mirror, which is missing
    from the sources: the Self-User, the Unavailable-Guild Set, the guild
    records, and the six child collections keyed by (guild identity, child
    identity). *)
Record Mirror := {
  me : option OwnUser;
  unavailable_guilds : gset Snowflake;
  guilds : gmap Snowflake Guild;
  channels : coll GuildChannel;
  emojis : coll KnownCustomEmoji;
  roles : coll Role;
  members : coll Member;
  presences : coll MemberPresence;
  voice_states : coll VoiceState
}.

Definition with_channels (f : coll GuildChannel → coll GuildChannel)
    (m : Mirror) : Mirror :=
  {| me := me m; unavailable_guilds := unavailable_guilds m;
     guilds := guilds m; channels := f (channels m); emojis := emojis m;
     roles := roles m; members := members m; presences := presences m;
     voice_states := voice_states m |}.

Definition with_emojis (f : coll KnownCustomEmoji → coll KnownCustomEmoji)
    (m : Mirror) : Mirror :=
  {| me := me m; unavailable_guilds := unavailable_guilds m;
     guilds := guilds m; channels := channels m; emojis := f (emojis m);
     roles := roles m; members := members m; presences := presences m;
     voice_states := voice_states m |}.

Definition with_roles (f : coll Role → coll Role) (m : Mirror) : Mirror :=
  {| me := me m; unavailable_guilds := unavailable_guilds m;
     guilds := guilds m; channels := channels m; emojis := emojis m;
     roles := f (roles m); members := members m; presences := presences m;
     voice_states := voice_states m |}.

Definition with_members (f : coll Member → coll Member) (m : Mirror)
    : Mirror :=
  {| me := me m; unavailable_guilds := unavailable_guilds m;
     guilds := guilds m; channels := channels m; emojis := emojis m;
     roles := roles m; members := f (members m); presences := presences m;
     voice_states := voice_states m |}.

Definition with_presences (f : coll MemberPresence → coll MemberPresence)
    (m : Mirror) : Mirror :=
  {| me := me m; unavailable_guilds := unavailable_guilds m;
     guilds := guilds m; channels := channels m; emojis := emojis m;
     roles := roles m; members := members m; presences := f (presences m);
     voice_states := voice_states m |}.

Definition with_voice_states (f : coll VoiceState → coll VoiceState)
    (m : Mirror) : Mirror :=
  {| me := me m; unavailable_guilds := unavailable_guilds m;
     guilds := guilds m; channels := channels m; emojis := emojis m;
     roles := roles m; members := members m; presences := presences m;
     voice_states := f (voice_states m) |}.

(** The guild part of the mirror: its records and the Unavailable-Guild Set. *)
Definition with_guilds (f : gmap Snowflake Guild → gmap Snowflake Guild)
    (u : gset Snowflake → gset Snowflake) (m : Mirror) : Mirror :=
  {| me := me m; unavailable_guilds := u (unavailable_guilds m);
     guilds := f (guilds m); channels := channels m; emojis := emojis m;
     roles := roles m; members := members m; presences := presences m;
     voice_states := voice_states m |}.

Definition with_me (user : option OwnUser) (m : Mirror) : Mirror :=
  {| me := user; unavailable_guilds := unavailable_guilds m;
     guilds := guilds m; channels := channels m; emojis := emojis m;
     roles := roles m; members := members m; presences := presences m;
     voice_states := voice_states m |}.

(** The tri-state availability of a guild. *)
Inductive Availability : Type := Available | Unavailable | Absent.

(** Modelled from the spec: the availability of a guild in the mirror, which
    is missing from the sources: a guild is exactly one of unavailable (in the
    Unavailable-Guild Set), available (not in the set, with its record in
    the mirror) or absent. *)
Definition availability (m : Mirror) (g : Snowflake) : Availability :=
  if decide (g ∈ unavailable_guilds m) then Unavailable
  else match guilds m !! g with
       | Some _ => Available
       | None => Absent
       end.

(** Modelled from the spec: the methods of the Cache Mirror, which are
    missing from the sources.
    - [update_me] sets the Self-User;
    - [set_initial_unavailable_guilds] seeds the Unavailable-Guild Set and
      replaces it;
    - [update_guild] upserts the guild record and marks the guild available;
      the children of the guild stay (a merge, not a full replace);
    - [set_guild_availability] marks the guild available or unavailable in
      place: the Unavailable-Guild Set shrinks as a guild becomes available
      and grows when it drops out;
    - [delete_guild] removes the guild, leaves it out of the
      Unavailable-Guild Set and cascades a clear across every child kind;
    - [clear_K] and [set_K] are [clear] and [set] on the collection of kind
      [K]. *)
Definition apply_call (call : CacheCall) (m : Mirror) : Mirror :=
  match call with
  | update_me user => with_me (Some user) m
  | set_initial_unavailable_guilds guild_ids =>
      with_guilds id (fun _ => list_to_set guild_ids) m
  | update_guild guild =>
      with_guilds (insert (g_id guild) guild) (fun u => u ∖ {[g_id guild]}) m
  | set_guild_availability guild_id is_available =>
      with_guilds id
        (fun u => if is_available then u ∖ {[guild_id]} else u ∪ {[guild_id]})
        m
  | delete_guild guild_id =>
      with_guilds (delete guild_id) (fun u => u ∖ {[guild_id]})
        (with_channels (coll_clear guild_id)
           (with_emojis (coll_clear guild_id)
              (with_roles (coll_clear guild_id)
                 (with_members (coll_clear guild_id)
                    (with_presences (coll_clear guild_id)
                       (with_voice_states (coll_clear guild_id) m))))))
  | clear_guild_channels guild_id => with_channels (coll_clear guild_id) m
  | set_guild_channel channel => with_channels (coll_set channel) m
  | clear_emojis guild_id => with_emojis (coll_clear guild_id) m
  | set_emoji emoji => with_emojis (coll_set emoji) m
  | clear_roles guild_id => with_roles (coll_clear guild_id) m
  | set_role role => with_roles (coll_set role) m
  | clear_members guild_id => with_members (coll_clear guild_id) m
  | set_member member => with_members (coll_set member) m
  | clear_presences guild_id => with_presences (coll_clear guild_id) m
  | set_presence presence => with_presences (coll_set presence) m
  | set_voice_state voice_state => with_voice_states (coll_set voice_state) m
  end.

(** The mirror and the events handed to the sink so far. *)
Record World := { mirror : Mirror; sink : list Event }.

Definition step (w : World) (e : Effect) : World :=
  match e with
  | Cache call => {| mirror := apply_call call (mirror w); sink := sink w |}
  | Dispatch event => {| mirror := mirror w; sink := sink w ++ [event] |}
  end.

Definition run (t : list Effect) (w : World) : World := foldl step w t.

(** Processing one payload: the effects of its handler, applied in order. *)
Definition process (entity_factory : EntityFactory) (name : EventName)
    (shard : Shard) (payload : JSONObject) (w : World) : World :=
  run (trace (handler entity_factory name shard payload)) w.

Definition empty_mirror : Mirror :=
  {| me := None; unavailable_guilds := ∅; guilds := ∅; channels := ∅;
     emojis := ∅; roles := ∅; members := ∅; presences := ∅;
     voice_states := ∅ |}.

Definition empty_world : World := {| mirror := empty_mirror; sink := [] |}.

(** The map a replacement batch leaves under its guild: the records in
    order, a later one overwriting an earlier one of the same identity. *)
Definition batch `{Child A} (xs : list A) : gmap Snowflake A :=
  foldl (fun acc x => <[key_of x := x]> acc) ∅ xs.

(** Every record of the batch is scoped to guild [g]. *)
Definition scoped `{Child A} (g : Snowflake) (xs : list A) : Prop :=
  Forall (fun x => guild_id_of x = g) xs.

(** ** A small entity factory

    A concrete decoder for the examples: identities are JSON integers, a
    child collection is a JSON array of the identities of its members, and
    a decoded child is scoped to the guild of the payload. *)
Module Fixture.

Definition int_field (payload : JSONObject) (key : string) : Result Z :=
  match payload !! key with
  | Some (JInt n) => Ok n
  | _ => Raise "KeyError"
  end.

Definition ids (payload : JSONObject) (key : string) : list Snowflake :=
  match payload !! key with
  | Some (JArray items) =>
      omap (fun v => match v with JInt n => Some n | _ => None end) items
  | _ => []
  end.

Definition entries {V} (make : Snowflake → V) (ns : list Snowflake)
    : dict V :=
  map (fun n => (n, make n)) ns.

Definition channel (g n : Snowflake) : GuildChannel :=
  {| ch_id := n; ch_guild_id := g; ch_name := "general" |}.
Definition emoji (g n : Snowflake) : KnownCustomEmoji :=
  {| em_id := n; em_guild_id := g; em_name := "wave" |}.
Definition role (g n : Snowflake) : Role :=
  {| ro_id := n; ro_guild_id := g; ro_name := "everyone" |}.
Definition member (g n : Snowflake) : Member :=
  {| mb_user := {| u_id := n; u_username := "user" |}; mb_guild_id := g;
     mb_nickname := None |}.
Definition presence (g n : Snowflake) : MemberPresence :=
  {| pr_user_id := n; pr_guild_id := g; pr_status := "online" |}.
Definition voice_state (g n : Snowflake) : VoiceState :=
  {| vs_user_id := n; vs_guild_id := g; vs_channel_id := None |}.

Definition ready (shard : Shard) (payload : JSONObject)
    : Result ReadyEvent.t :=
  match int_field payload "user" with
  | Ok n =>
      Ok {| ReadyEvent.shard := shard;
            ReadyEvent.my_user := {| ou_id := n; ou_username := "bot" |};
            ReadyEvent.unavailable_guilds :=
              entries (fun g => {| ug_id := g |}) (ids payload "guilds");
            ReadyEvent.session_id := "session" |}
  | Raise e => Raise e
  end.

Definition guild_create (payload : JSONObject)
    : Result GuildCreateEvent.t :=
  match int_field payload "id" with
  | Ok g =>
      Ok {| GuildCreateEvent.guild := {| g_id := g; g_name := "guild" |};
            GuildCreateEvent.channels :=
              entries (channel g) (ids payload "channels");
            GuildCreateEvent.emojis :=
              entries (emoji g) (ids payload "emojis");
            GuildCreateEvent.roles := entries (role g) (ids payload "roles");
            GuildCreateEvent.members :=
              entries (member g) (ids payload "members");
            GuildCreateEvent.presences :=
              entries (presence g) (ids payload "presences");
            GuildCreateEvent.voice_states :=
              entries (voice_state g) (ids payload "voice_states") |}
  | Raise e => Raise e
  end.

Definition guild_update (payload : JSONObject)
    : Result GuildUpdateEvent.t :=
  match int_field payload "id" with
  | Ok g =>
      Ok {| GuildUpdateEvent.guild := {| g_id := g; g_name := "renamed" |};
            GuildUpdateEvent.emojis :=
              entries (emoji g) (ids payload "emojis");
            GuildUpdateEvent.roles := entries (role g) (ids payload "roles") |}
  | Raise e => Raise e
  end.

Definition guild_unavailable (payload : JSONObject)
    : Result GuildUnavailableEvent.t :=
  match int_field payload "id" with
  | Ok g => Ok {| GuildUnavailableEvent.id := g |}
  | Raise e => Raise e
  end.

Definition guild_leave (payload : JSONObject)
    : Result GuildLeaveEvent.t :=
  match int_field payload "id" with
  | Ok g => Ok {| GuildLeaveEvent.id := g |}
  | Raise e => Raise e
  end.

Definition delta (kind : DeltaKind) (payload : JSONObject)
    : Result Entity :=
  match int_field payload "guild_id", int_field payload "id" with
  | Ok g, Ok n =>
      Ok match kind with
         | channel_create | channel_update => AChannel (channel g n)
         | guild_role_create | guild_role_update => ARole (role g n)
         | guild_member_add | guild_member_update => AMember (member g n)
         | presence_update => APresence (presence g n)
         | voice_state_update => AVoiceState (voice_state g n)
         | channel_delete | guild_role_delete | guild_member_remove =>
             Removed g n
         | _ => Other payload
         end
  | Raise e, _ | _, Raise e => Raise e
  end.

Definition factory : EntityFactory :=
  {| deserialize_ready_event := ready;
     deserialize_guild_create_event := guild_create;
     deserialize_guild_update_event := guild_update;
     deserialize_guild_unavailable_event := guild_unavailable;
     deserialize_guild_leave_event := guild_leave;
     deserialize_event := delta |}.

(** A factory whose every method raises. *)
Definition broken : EntityFactory :=
  {| deserialize_ready_event := fun _ _ => Raise "DecodeError";
     deserialize_guild_create_event := fun _ => Raise "DecodeError";
     deserialize_guild_update_event := fun _ => Raise "DecodeError";
     deserialize_guild_unavailable_event := fun _ => Raise "DecodeError";
     deserialize_guild_leave_event := fun _ => Raise "DecodeError";
     deserialize_event := fun _ _ => Raise "DecodeError" |}.

Definition ints (ns : list Z) : JSON := JArray (map JInt ns).

(** Two snapshots of guild 1: the first with channel 10 and the voice
    state of user 7, the second with channel 11 and no voice state. *)
Definition snapshot1 : JSONObject :=
  <["id" := JInt 1]> (<["channels" := ints [10]]>
    (<["voice_states" := ints [7]]> ∅)).
Definition snapshot2 : JSONObject :=
  <["id" := JInt 1]> (<["channels" := ints [11]]> ∅).

Definition snapshot1_event : GuildCreateEvent.t :=
  {| GuildCreateEvent.guild := {| g_id := 1; g_name := "guild" |};
     GuildCreateEvent.channels := [(10, channel 1 10)];
     GuildCreateEvent.emojis := [];
     GuildCreateEvent.roles := [];
     GuildCreateEvent.members := [];
     GuildCreateEvent.presences := [];
     GuildCreateEvent.voice_states := [(7, voice_state 1 7)] |}.
Definition snapshot2_event : GuildCreateEvent.t :=
  {| GuildCreateEvent.guild := {| g_id := 1; g_name := "guild" |};
     GuildCreateEvent.channels := [(11, channel 1 11)];
     GuildCreateEvent.emojis := [];
     GuildCreateEvent.roles := [];
     GuildCreateEvent.members := [];
     GuildCreateEvent.presences := [];
     GuildCreateEvent.voice_states := [] |}.

(** A guild update for guild 1 with roles 20 and 21 and emoji 30. *)
Definition update1 : JSONObject :=
  <["id" := JInt 1]> (<["roles" := ints [20; 21]]>
    (<["emojis" := ints [30]]> ∅)).

Definition update1_event : GuildUpdateEvent.t :=
  {| GuildUpdateEvent.guild := {| g_id := 1; g_name := "renamed" |};
     GuildUpdateEvent.emojis := [(30, emoji 1 30)];
     GuildUpdateEvent.roles := [(20, role 1 20); (21, role 1 21)] |}.

(** Guild-delete payloads for guild 1: the outage, the removal, and the
    removal with the flag left out. *)
Definition outage1 : JSONObject :=
  <["id" := JInt 1]> (<["unavailable" := JBool true]> ∅).
Definition removal1 : JSONObject :=
  <["id" := JInt 1]> (<["unavailable" := JBool false]> ∅).
Definition kicked1 : JSONObject := <["id" := JInt 1]> ∅.

(** A ready payload for user 99 with guilds 1 and 2 unavailable. *)
Definition ready1 : JSONObject :=
  <["user" := JInt 99]> (<["guilds" := ints [1; 2]]> ∅).

Definition ready1_event : ReadyEvent.t :=
  {| ReadyEvent.shard := 0;
     ReadyEvent.my_user := {| ou_id := 99; ou_username := "bot" |};
     ReadyEvent.unavailable_guilds :=
       [(1, {| ug_id := 1 |}); (2, {| ug_id := 2 |})];
     ReadyEvent.session_id := "session" |}.

(** A channel-create payload: channel 10 of guild 1. *)
Definition new_channel : JSONObject :=
  <["guild_id" := JInt 1]> (<["id" := JInt 10]> ∅).

(** A payload no decoder of [factory] accepts. *)
Definition malformed : JSONObject := <["id" := JString "one"]> ∅.

End Fixture.

(** ** Reading a handler *)

(** Forget the value of a result. *)
Definition void {A} (r : Result A) : Result unit :=
  match r with Ok _ => Ok tt | Raise e => Raise e end.

(** The entity-factory call the handler of [name] makes on a payload, its
    value forgotten; [Ok tt] for the handlers that make none. *)
Definition decoding (entity_factory : EntityFactory) (name : EventName)
    (shard : Shard) (payload : JSONObject) : Result unit :=
  match name with
  | CONNECTED | DISCONNECTED | RESUMED | GUILD_MEMBERS_CHUNK => Ok tt
  | READY => void (deserialize_ready_event entity_factory shard payload)
  | GUILD_CREATE => void (deserialize_guild_create_event entity_factory payload)
  | GUILD_UPDATE => void (deserialize_guild_update_event entity_factory payload)
  | GUILD_DELETE =>
      if truthy (get payload "unavailable" (JBool false))
      then void (deserialize_guild_unavailable_event entity_factory payload)
      else void (deserialize_guild_leave_event entity_factory payload)
  | DELTA kind => void (deserialize_event entity_factory kind payload)
  end.

(** The event kinds whose recipe mutates the mirror. *)
Definition mutating (name : EventName) : bool :=
  match name with
  | READY | GUILD_CREATE | GUILD_UPDATE | GUILD_DELETE => true
  | _ => false
  end.

(** The mirror after the cache calls of a trace. *)
Definition apply_calls (calls : list CacheCall) (m : Mirror) : Mirror :=
  foldl (fun m call => apply_call call m) m calls.

(** [for x in xs: set(x)] on one collection. *)
Definition set_all `{Child A} (xs : list A) (c : coll A) : coll A :=
  foldl (fun c x => coll_set x c) c xs.

(** The cache calls of [on_guild_create] on a decoded event, in program
    order (see [on_guild_create_trace]). *)
Definition guild_create_calls (event : GuildCreateEvent.t) : list CacheCall :=
  let guild_id := g_id (GuildCreateEvent.guild event) in
  [update_guild (GuildCreateEvent.guild event)]
  ++ clear_guild_channels guild_id
     :: map set_guild_channel (values (GuildCreateEvent.channels event))
  ++ clear_emojis guild_id
     :: map set_emoji (values (GuildCreateEvent.emojis event))
  ++ clear_roles guild_id
     :: map set_role (values (GuildCreateEvent.roles event))
  ++ clear_members guild_id
     :: map set_member (values (GuildCreateEvent.members event))
  ++ clear_presences guild_id
     :: map set_presence (values (GuildCreateEvent.presences event))
  ++ map set_voice_state (values (GuildCreateEvent.voice_states event)).

(** The cache calls of [on_guild_update] on a decoded event, in program
    order (see [on_guild_update_trace]). *)
Definition guild_update_calls (event : GuildUpdateEvent.t) : list CacheCall :=
  let guild_id := g_id (GuildUpdateEvent.guild event) in
  [update_guild (GuildUpdateEvent.guild event)]
  ++ clear_roles guild_id
     :: map set_role (values (GuildUpdateEvent.roles event))
  ++ clear_emojis guild_id
     :: map set_emoji (values (GuildUpdateEvent.emojis event)).

(** ** Reading a trace *)



(** Where the cache files a record: its guild and its identity there. *)
Definition place `{Child A} (x : A) : Snowflake * Snowflake :=
  (guild_id_of x, key_of x).

(** No two records of the batch are filed at the same place. *)
Definition distinct `{Child A} (xs : list A) : Prop := NoDup (map place xs).

(** The records of the batch that carry guild [h]. *)
Definition filed_under `{Child A} (h : Snowflake) (xs : list A) : list A :=
  filter (fun x => guild_id_of x = h) xs.

(** Writing records into the children of one guild, in order. *)
Definition write_all `{Child A} (xs : list A) (acc : gmap Snowflake A)
    : gmap Snowflake A :=
  foldl (fun acc x => <[key_of x := x]> acc) acc xs.

(** ** More payloads and factories *)

Module Samples.

(** A guild-delete payload for guild 1 with an arbitrary flag value. *)
Definition flagged (v : JSON) : JSONObject :=
  <["id" := JInt 1]> (<["unavailable" := v]> ∅).

(** [Fixture.factory], except that the leave decoder raises. *)
Definition outage_only : EntityFactory :=
  {| deserialize_ready_event := Fixture.ready;
     deserialize_guild_create_event := Fixture.guild_create;
     deserialize_guild_update_event := Fixture.guild_update;
     deserialize_guild_unavailable_event := Fixture.guild_unavailable;
     deserialize_guild_leave_event := fun _ => Raise "DecodeError";
     deserialize_event := Fixture.delta |}.

(** A decoder that files role 20 under guild 2 whatever the payload's
    guild: a guild update for guild 1 carrying a role of guild 2. *)
Definition stray_update : GuildUpdateEvent.t :=
  {| GuildUpdateEvent.guild := {| g_id := 1; g_name := "renamed" |};
     GuildUpdateEvent.emojis := [];
     GuildUpdateEvent.roles := [(20, Fixture.role 2 20)] |}.

Definition stray : EntityFactory :=
  {| deserialize_ready_event := Fixture.ready;
     deserialize_guild_create_event := Fixture.guild_create;
     deserialize_guild_update_event := fun _ => Ok stray_update;
     deserialize_guild_unavailable_event := Fixture.guild_unavailable;
     deserialize_guild_leave_event := Fixture.guild_leave;
     deserialize_event := Fixture.delta |}.

End Samples.

(** ** The monad *)


Lemma bind_decode_ok {A B} (a : A) (f : A → M B) : decode (Ok a) ≫= f = f a.
Proof. unfold decode, mbind, M_bind. by destruct (f a). Qed.


Lemma bind_cache {B} call (f : unit → M B) :
  cache call ≫= f = (Cache call :: trace (f tt), outcome (f tt)).
Proof. unfold cache, mbind, M_bind. by destruct (f tt). Qed.

Lemma for_each_cache {A} (g : A → CacheCall) (xs : list A) :
  for_each xs (fun x => cache (g x)) = (map (fun x => Cache (g x)) xs, Ok tt).
Proof.
  induction xs as [|x xs IH]; [done|].
  cbn [for_each]. by rewrite bind_cache, IH.
Qed.

Lemma bind_for_each_cache {A B} (g : A → CacheCall) xs (f : unit → M B) :
  for_each xs (fun x => cache (g x)) ≫= f =
  (map (fun x => Cache (g x)) xs ++ trace (f tt), outcome (f tt)).
Proof. rewrite for_each_cache. unfold mbind, M_bind. by destruct (f tt). Qed.

Ltac trace_steps :=
  repeat (first [rewrite bind_cache | rewrite bind_for_each_cache]; cbv beta).

(** ** Running a trace *)

Lemma run_app t1 t2 w : run (t1 ++ t2) w = run t2 (run t1 w).
Proof. apply foldl_app. Qed.

Lemma cache_calls_app t1 t2 :
  cache_calls (t1 ++ t2) = cache_calls t1 ++ cache_calls t2.
Proof. apply omap_app. Qed.

Lemma dispatched_app t1 t2 :
  dispatched (t1 ++ t2) = dispatched t1 ++ dispatched t2.
Proof. apply omap_app. Qed.

Lemma cache_calls_Cache calls : cache_calls (map Cache calls) = calls.
Proof. induction calls as [|c calls IH]; [done|]. cbn. by f_equal. Qed.

Lemma dispatched_Cache calls : dispatched (map Cache calls) = [].
Proof. induction calls as [|c calls IH]; [done|]. by cbn. Qed.

Lemma apply_calls_app c1 c2 m :
  apply_calls (c1 ++ c2) m = apply_calls c2 (apply_calls c1 m).
Proof. apply foldl_app. Qed.

Lemma run_cons e t w : run (e :: t) w = run t (step w e).
Proof. done. Qed.

(** A run splits into what it does to the mirror and what it hands to the
    sink. *)
Lemma run_split t w :
  run t w = {| mirror := apply_calls (cache_calls t) (mirror w);
               sink := sink w ++ dispatched t |}.
Proof.
  revert w. induction t as [|e t IH]; intros [m s].
  - cbn. by rewrite app_nil_r.
  - rewrite run_cons, IH. destruct e as [call|event]; cbn; [done|].
    by rewrite <- app_assoc.
Qed.

Lemma mirror_run t w : mirror (run t w) = apply_calls (cache_calls t) (mirror w).
Proof. by rewrite run_split. Qed.

Lemma sink_run t w : sink (run t w) = sink w ++ dispatched t.
Proof. by rewrite run_split. Qed.


(** ** Child collections *)

Section Collections.

Context `{Child A}.
Implicit Types (c : gmap Z (gmap Z A)) (xs : list A) (x : A) (g : Z).

Lemma children_of_clear g c : children_of (coll_clear g c) g = ∅.
Proof. unfold children_of, coll_clear. by rewrite lookup_delete_eq. Qed.

Lemma lookup_clear_ne g g' c : g' ≠ g → coll_clear g c !! g' = c !! g'.
Proof. intros Hne. unfold coll_clear. by rewrite lookup_delete_ne. Qed.

Lemma children_of_set x c :
  children_of (coll_set x c) (guild_id_of x) =
  <[key_of x := x]> (children_of c (guild_id_of x)).
Proof. unfold children_of at 1, coll_set. by rewrite lookup_insert_eq. Qed.

Lemma lookup_set_ne x c g' :
  g' ≠ guild_id_of x → coll_set x c !! g' = c !! g'.
Proof. intros Hne. unfold coll_set. by rewrite lookup_insert_ne. Qed.

(** Sets scoped to a guild act on the children of that guild only. *)
Lemma children_of_set_all g xs c :
  scoped g xs →
  children_of (set_all xs c) g =
  foldl (fun acc x => <[key_of x := x]> acc) (children_of c g) xs.
Proof.
  intros Hs. revert c. induction Hs as [|x xs Hx _ IH]; intros c; [done|].
  cbn [set_all foldl]. fold (set_all xs (coll_set x c)).
  rewrite IH. subst g. by rewrite children_of_set.
Qed.

Lemma lookup_set_all_ne g g' xs c :
  scoped g xs → g' ≠ g → set_all xs c !! g' = c !! g'.
Proof.
  intros Hs Hne. revert c. induction Hs as [|x xs Hx _ IH]; intros c; [done|].
  cbn [set_all foldl]. fold (set_all xs (coll_set x c)).
  rewrite IH. apply lookup_set_ne. by subst g.
Qed.

(** Clear, then set the batch: the guild holds the batch and nothing
    else. *)
Lemma children_of_replace g xs c :
  scoped g xs → children_of (set_all xs (coll_clear g c)) g = batch xs.
Proof.
  intros Hs. by rewrite children_of_set_all, children_of_clear.
Qed.

Lemma lookup_replace_ne g g' xs c :
  scoped g xs → g' ≠ g → set_all xs (coll_clear g c) !! g' = c !! g'.
Proof.
  intros Hs Hne. by rewrite (lookup_set_all_ne g), lookup_clear_ne.
Qed.

(** Without the clear, the children already filed stay, unless
    overwritten. *)
Lemma children_of_set_all_stale g xs c k y :
  scoped g xs →
  children_of c g !! k = Some y →
  k ∉ map key_of xs →
  children_of (set_all xs c) g !! k = Some y.
Proof.
  intros Hs Hk Hfresh. rewrite children_of_set_all by done.
  revert Hk Hfresh. generalize (children_of c g). clear Hs.
  induction xs as [|x xs IH]; intros acc Hk Hfresh; [done|].
  cbn [foldl]. apply IH.
  - rewrite lookup_insert_ne; [done|].
    intros Heq. apply Hfresh. cbn. rewrite Heq. by left.
  - intros Hin. apply Hfresh. cbn. by right.
Qed.

End Collections.

(** ** What a run of sets does to the mirror *)

Lemma apply_calls_cons call calls m :
  apply_calls (call :: calls) m = apply_calls calls (apply_call call m).
Proof. done. Qed.


Lemma apply_set_guild_channels xs m :
  apply_calls (map set_guild_channel xs) m = with_channels (set_all xs) m.
Proof.
  revert m. induction xs as [|x xs IH]; intros m; [by destruct m|].
  cbn [map]. by rewrite apply_calls_cons, IH.
Qed.

Lemma apply_set_emojis xs m :
  apply_calls (map set_emoji xs) m = with_emojis (set_all xs) m.
Proof.
  revert m. induction xs as [|x xs IH]; intros m; [by destruct m|].
  cbn [map]. by rewrite apply_calls_cons, IH.
Qed.

Lemma apply_set_roles xs m :
  apply_calls (map set_role xs) m = with_roles (set_all xs) m.
Proof.
  revert m. induction xs as [|x xs IH]; intros m; [by destruct m|].
  cbn [map]. by rewrite apply_calls_cons, IH.
Qed.

Lemma apply_set_members xs m :
  apply_calls (map set_member xs) m = with_members (set_all xs) m.
Proof.
  revert m. induction xs as [|x xs IH]; intros m; [by destruct m|].
  cbn [map]. by rewrite apply_calls_cons, IH.
Qed.

Lemma apply_set_presences xs m :
  apply_calls (map set_presence xs) m = with_presences (set_all xs) m.
Proof.
  revert m. induction xs as [|x xs IH]; intros m; [by destruct m|].
  cbn [map]. by rewrite apply_calls_cons, IH.
Qed.

Lemma apply_set_voice_states xs m :
  apply_calls (map set_voice_state xs) m = with_voice_states (set_all xs) m.
Proof.
  revert m. induction xs as [|x xs IH]; intros m; [by destruct m|].
  cbn [map]. by rewrite apply_calls_cons, IH.
Qed.

(** ** The traces of the handlers *)

Lemma on_ready_trace fac sh p ev :
  deserialize_ready_event fac sh p = Ok ev →
  on_ready fac sh p =
  ([Cache (update_me (ReadyEvent.my_user ev));
    Cache (set_initial_unavailable_guilds
             (keys (ReadyEvent.unavailable_guilds ev)));
    Dispatch (Ready ev)], Ok tt).
Proof. intros Hd. unfold on_ready. by rewrite Hd. Qed.

Lemma on_guild_create_trace fac sh p ev :
  deserialize_guild_create_event fac p = Ok ev →
  on_guild_create fac sh p =
  (map Cache (guild_create_calls ev) ++ [Dispatch (GuildCreate ev)], Ok tt).
Proof.
  intros Hd. unfold on_guild_create. rewrite Hd, bind_decode_ok.
  trace_steps. unfold guild_create_calls.
  cbn [trace outcome fst snd dispatch].
  repeat first [rewrite map_app | rewrite map_cons | rewrite map_map].
  cbn [map app]. repeat (rewrite <- app_assoc; cbn [app]). reflexivity.
Qed.

Lemma on_guild_update_trace fac sh p ev :
  deserialize_guild_update_event fac p = Ok ev →
  on_guild_update fac sh p =
  (map Cache (guild_update_calls ev) ++ [Dispatch (GuildUpdate ev)], Ok tt).
Proof.
  intros Hd. unfold on_guild_update. rewrite Hd, bind_decode_ok.
  trace_steps. unfold guild_update_calls.
  cbn [trace outcome fst snd dispatch].
  repeat first [rewrite map_app | rewrite map_cons | rewrite map_map].
  cbn [map app]. repeat (rewrite <- app_assoc; cbn [app]). reflexivity.
Qed.

Lemma on_guild_delete_unavailable fac sh p ev :
  truthy (get p "unavailable" (JBool false)) = true →
  deserialize_guild_unavailable_event fac p = Ok ev →
  on_guild_delete fac sh p =
  ([Cache (set_guild_availability (GuildUnavailableEvent.id ev) false);
    Dispatch (GuildUnavailable ev)], Ok tt).
Proof. intros Hf Hd. unfold on_guild_delete. by rewrite Hf, Hd. Qed.

Lemma on_guild_delete_leave fac sh p ev :
  truthy (get p "unavailable" (JBool false)) = false →
  deserialize_guild_leave_event fac p = Ok ev →
  on_guild_delete fac sh p =
  ([Cache (delete_guild (GuildLeaveEvent.id ev)); Dispatch (GuildLeave ev)],
   Ok tt).
Proof. intros Hf Hd. unfold on_guild_delete. by rewrite Hf, Hd. Qed.

Lemma forward_trace fac kind p subject :
  deserialize_event fac kind p = Ok subject →
  forward fac kind p = ([Dispatch (Delta kind subject)], Ok tt).
Proof. intros Hd. unfold forward. by rewrite Hd. Qed.

Lemma delta_handler_forward fac kind sh p :
  delta_handler fac kind sh p = forward fac kind p.
Proof. by destruct kind. Qed.

(** A handler whose entity-factory call raises has done nothing yet. *)
Lemma handler_raise fac name sh p e :
  decoding fac name sh p = Raise e → handler fac name sh p = ([], Raise e).
Proof.
  destruct name as [| | | | | | | |kind]; cbn [decoding handler];
    try discriminate.
  - unfold on_ready.
    destruct (deserialize_ready_event fac sh p); [discriminate|].
    by intros [= ->].
  - unfold on_guild_create.
    destruct (deserialize_guild_create_event fac p); [discriminate|].
    by intros [= ->].
  - unfold on_guild_update.
    destruct (deserialize_guild_update_event fac p); [discriminate|].
    by intros [= ->].
  - unfold on_guild_delete.
    destruct (truthy (get p "unavailable" (JBool false))).
    + destruct (deserialize_guild_unavailable_event fac p); [discriminate|].
      by intros [= ->].
    + destruct (deserialize_guild_leave_event fac p); [discriminate|].
      by intros [= ->].
  - rewrite delta_handler_forward. unfold forward.
    destruct (deserialize_event fac kind p); [discriminate|].
    by intros [= ->].
Qed.

(** ** The mirror after the guild recipes *)

Lemma apply_guild_create_calls ev m :
  let g := g_id (GuildCreateEvent.guild ev) in
  apply_calls (guild_create_calls ev) m =
  with_voice_states (set_all (values (GuildCreateEvent.voice_states ev)))
    (with_presences
       (set_all (values (GuildCreateEvent.presences ev)) ∘ coll_clear g)
       (with_members
          (set_all (values (GuildCreateEvent.members ev)) ∘ coll_clear g)
          (with_roles
             (set_all (values (GuildCreateEvent.roles ev)) ∘ coll_clear g)
             (with_emojis
                (set_all (values (GuildCreateEvent.emojis ev)) ∘ coll_clear g)
                (with_channels
                   (set_all (values (GuildCreateEvent.channels ev))
                    ∘ coll_clear g)
                   (with_guilds (insert g (GuildCreateEvent.guild ev))
                      (fun u => u ∖ {[g]}) m)))))).
Proof.
  intros g. unfold guild_create_calls. fold g.
  repeat first [rewrite apply_calls_app | rewrite apply_calls_cons].
  rewrite apply_set_guild_channels, apply_set_emojis, apply_set_roles,
    apply_set_members, apply_set_presences, apply_set_voice_states.
  by destruct m.
Qed.

Lemma apply_guild_update_calls ev m :
  let g := g_id (GuildUpdateEvent.guild ev) in
  apply_calls (guild_update_calls ev) m =
  with_emojis (set_all (values (GuildUpdateEvent.emojis ev)) ∘ coll_clear g)
    (with_roles (set_all (values (GuildUpdateEvent.roles ev)) ∘ coll_clear g)
       (with_guilds (insert g (GuildUpdateEvent.guild ev))
          (fun u => u ∖ {[g]}) m)).
Proof.
  intros g. unfold guild_update_calls. fold g.
  repeat first [rewrite apply_calls_app | rewrite apply_calls_cons].
  rewrite apply_set_roles, apply_set_emojis.
  by destruct m.
Qed.

(** Processing a payload whose handler ran to its dispatch. *)
Lemma process_dispatching fac name sh p calls event w :
  trace (handler fac name sh p) = map Cache calls ++ [Dispatch event] →
  process fac name sh p w =
  {| mirror := apply_calls calls (mirror w); sink := sink w ++ [event] |}.
Proof.
  intros Ht. unfold process. rewrite Ht, run_split.
  rewrite cache_calls_app, dispatched_app, cache_calls_Cache, dispatched_Cache.
  cbn. by rewrite app_nil_r.
Qed.

(** ** Session ready *)

(** C7.  On a ready payload the handler decodes the event, then calls
    [update_me] with the decoded own user, then
    [set_initial_unavailable_guilds] with the keys of the decoded
    unavailable guilds, then dispatches the event, and does nothing else.
    Afterwards the Self-User is the decoded user and the Unavailable-Guild
    Set is exactly the decoded keys, whatever it held before; the guild
    records and the six child collections are as they were. *)
Theorem on_ready_recipe fac sh p ev w :
  deserialize_ready_event fac sh p = Ok ev →
  on_ready fac sh p =
    ([Cache (update_me (ReadyEvent.my_user ev));
      Cache (set_initial_unavailable_guilds
               (keys (ReadyEvent.unavailable_guilds ev)));
      Dispatch (Ready ev)], Ok tt)
  ∧ me (mirror (process fac READY sh p w)) = Some (ReadyEvent.my_user ev)
  ∧ unavailable_guilds (mirror (process fac READY sh p w)) =
      list_to_set (keys (ReadyEvent.unavailable_guilds ev))
  ∧ guilds (mirror (process fac READY sh p w)) = guilds (mirror w)
  ∧ channels (mirror (process fac READY sh p w)) = channels (mirror w)
  ∧ emojis (mirror (process fac READY sh p w)) = emojis (mirror w)
  ∧ roles (mirror (process fac READY sh p w)) = roles (mirror w)
  ∧ members (mirror (process fac READY sh p w)) = members (mirror w)
  ∧ presences (mirror (process fac READY sh p w)) = presences (mirror w)
  ∧ voice_states (mirror (process fac READY sh p w)) = voice_states (mirror w)
  ∧ sink (process fac READY sh p w) = sink w ++ [Ready ev].
Proof.
  intros Hd. pose proof (on_ready_trace fac sh p ev Hd) as Ht.
  split; [exact Ht|].
  unfold process. cbn [handler]. rewrite Ht. by destruct w as [[] ?].
Qed.

Lemma on_ready_recipe_witness :
  deserialize_ready_event Fixture.factory 0 Fixture.ready1 =
    Ok Fixture.ready1_event
  ∧ unavailable_guilds
      (mirror (process Fixture.factory READY 0 Fixture.ready1 empty_world)) =
    list_to_set [1; 2].
Proof.
  split; [reflexivity|].
  refine (proj1 (proj2 (proj2
    (on_ready_recipe Fixture.factory 0 Fixture.ready1 Fixture.ready1_event
       empty_world _)))).
  reflexivity.
Defined.

(** ** Member chunks *)

(** C9.  On a member-chunk payload the handler does nothing: whatever the
    entity factory, even one whose every method raises, it returns normally
    with an empty trace, so no decoder result is consulted, the mirror is
    as it was and nothing reaches the sink. *)
Theorem on_guild_members_chunk_noop fac sh p w :
  on_guild_members_chunk sh p = ([], Ok tt)
  ∧ handler fac GUILD_MEMBERS_CHUNK sh p = ([], Ok tt)
  ∧ handler Fixture.broken GUILD_MEMBERS_CHUNK sh p = ([], Ok tt)
  ∧ process fac GUILD_MEMBERS_CHUNK sh p w = w.
Proof. done. Qed.

(** ** Decode failures *)

(** C5.  If the entity-factory call of a handler raises, the failure
    propagates out of the handler, which has then made no cache call and
    dispatched nothing: the world after the payload is the world before
    it, and the next payload is processed as if the failed one had never
    arrived. *)
Theorem decode_failure_isolation fac name sh p e w :
  decoding fac name sh p = Raise e →
  handler fac name sh p = ([], Raise e)
  ∧ process fac name sh p w = w
  ∧ ∀ name' sh' p',
      process fac name' sh' p' (process fac name sh p w) =
      process fac name' sh' p' w.
Proof.
  intros Hd. pose proof (handler_raise fac name sh p e Hd) as Hh.
  assert (process fac name sh p w = w) as Hw.
  { unfold process. by rewrite Hh. }
  split; [exact Hh|]. split; [exact Hw|].
  intros name' sh' p'. by rewrite Hw.
Qed.

Lemma decode_failure_isolation_witness :
  decoding Fixture.factory GUILD_CREATE 0 Fixture.malformed = Raise "KeyError"
  ∧ handler Fixture.factory GUILD_CREATE 0 Fixture.malformed =
      ([], Raise "KeyError")
  ∧ process Fixture.factory GUILD_CREATE 0 Fixture.snapshot1
      (process Fixture.factory GUILD_CREATE 0 Fixture.malformed empty_world) =
    process Fixture.factory GUILD_CREATE 0 Fixture.snapshot1 empty_world.
Proof.
  assert (decoding Fixture.factory GUILD_CREATE 0 Fixture.malformed =
          Raise "KeyError") as Hd by reflexivity.
  split; [exact Hd|].
  destruct (decode_failure_isolation Fixture.factory GUILD_CREATE 0
              Fixture.malformed "KeyError" empty_world Hd) as (Hh & _ & Hn).
  split; [exact Hh|]. apply Hn.
Defined.

(** ** The one-line handlers *)

(** C4, as amended.  On a payload of a per-child kind the handler decodes
    the payload and dispatches the decoded event; it makes no cache call,
    so the mirror is as it was. *)
Theorem delta_handler_dispatches_only fac kind sh p subject w :
  deserialize_event fac kind p = Ok subject →
  delta_handler fac kind sh p = ([Dispatch (Delta kind subject)], Ok tt)
  ∧ cache_calls (trace (delta_handler fac kind sh p)) = []
  ∧ mirror (process fac (DELTA kind) sh p w) = mirror w
  ∧ sink (process fac (DELTA kind) sh p w) = sink w ++ [Delta kind subject].
Proof.
  intros Hd. rewrite delta_handler_forward.
  pose proof (forward_trace fac kind p subject Hd) as Ht.
  split; [exact Ht|]. unfold process. cbn [handler].
  rewrite delta_handler_forward, Ht. done.
Qed.

Lemma delta_handler_dispatches_only_witness :
  deserialize_event Fixture.factory guild_role_delete Fixture.new_channel =
    Ok (Removed 1 10)
  ∧ delta_handler Fixture.factory guild_role_delete 0 Fixture.new_channel =
      ([Dispatch (Delta guild_role_delete (Removed 1 10))], Ok tt).
Proof.
  split; [reflexivity|].
  refine (proj1 (delta_handler_dispatches_only Fixture.factory
                   guild_role_delete 0 Fixture.new_channel _ empty_world _)).
  reflexivity.
Defined.

(** C4, as stated, fails.  The channel-create payload for channel 10 of
    guild 1 decodes, and its handler dispatches the event, yet it applies
    no cache primitive at all, let alone exactly one set: the channel is
    not in the mirror afterwards. *)
Lemma on_channel_create_sets_nothing :
  let h := on_channel_create Fixture.factory 0 Fixture.new_channel in
  let w := process Fixture.factory (DELTA channel_create) 0
             Fixture.new_channel empty_world in
  dispatched (trace h) = [Delta channel_create (AChannel (Fixture.channel 1 10))]
  ∧ ¬ (∃ call, cache_calls (trace h) = [call])
  ∧ children_of (channels (mirror w)) 1 !! 10 = None.
Proof.
  cbv zeta. split; [reflexivity|]. split; [|reflexivity].
  intros [call Hc]. vm_compute in Hc. discriminate Hc.
Qed.

(** ** Guild delete *)

Lemma truthy_flag p (flag : bool) :
  p !! "unavailable" = Some (JBool flag) →
  truthy (get p "unavailable" (JBool false)) = flag.
Proof. intros Hp. unfold get. by rewrite Hp. Qed.

Lemma truthy_flag_absent (p : gmap string JSON) :
  p !! "unavailable" = None →
  truthy (get p "unavailable" (JBool false)) = false.
Proof. intros Hp. unfold get. by rewrite Hp. Qed.

Lemma availability_delete_guild g m :
  availability (apply_call (delete_guild g) m) g = Absent.
Proof.
  unfold availability. cbn. rewrite lookup_delete_eq.
  destruct (decide _) as [Hin|_]; [|done].
  apply elem_of_difference in Hin as [_ Hin]. by destruct Hin; apply elem_of_singleton.
Qed.

Lemma availability_unavailable g m :
  availability (apply_call (set_guild_availability g false) m) g = Unavailable.
Proof.
  unfold availability. cbn. destruct (decide _) as [_|Hin]; [done|].
  destruct Hin. apply elem_of_union_r. by apply elem_of_singleton.
Qed.

(** C3.  On a guild-delete payload whose "unavailable" flag is a boolean,
    the flag alone decides the branch.  If it is true, the handler makes the
    single cache call [set_guild_availability(id, False)] and dispatches a
    GuildUnavailableEvent: the guild is unavailable afterwards, it joins the
    Unavailable-Guild Set, and the guild records, the Self-User and all six
    child collections are as they were.  If it is false, the handler makes
    the single cache call [delete_guild(id)] and dispatches a
    GuildLeaveEvent: the guild is absent afterwards and each of its six
    child collections is empty. *)
Theorem on_guild_delete_branches fac sh p (flag : bool) w :
  p !! "unavailable" = Some (JBool flag) →
  let m := mirror w in
  let m' := mirror (process fac GUILD_DELETE sh p w) in
  if flag then
    ∀ ev, deserialize_guild_unavailable_event fac p = Ok ev →
      on_guild_delete fac sh p =
        ([Cache (set_guild_availability (GuildUnavailableEvent.id ev) false);
          Dispatch (GuildUnavailable ev)], Ok tt)
      ∧ sink (process fac GUILD_DELETE sh p w) = sink w ++ [GuildUnavailable ev]
      ∧ availability m' (GuildUnavailableEvent.id ev) = Unavailable
      ∧ unavailable_guilds m' =
          unavailable_guilds m ∪ {[GuildUnavailableEvent.id ev]}
      ∧ guilds m' = guilds m ∧ me m' = me m
      ∧ channels m' = channels m ∧ emojis m' = emojis m
      ∧ roles m' = roles m ∧ members m' = members m
      ∧ presences m' = presences m ∧ voice_states m' = voice_states m
  else
    ∀ ev, deserialize_guild_leave_event fac p = Ok ev →
      on_guild_delete fac sh p =
        ([Cache (delete_guild (GuildLeaveEvent.id ev));
          Dispatch (GuildLeave ev)], Ok tt)
      ∧ sink (process fac GUILD_DELETE sh p w) = sink w ++ [GuildLeave ev]
      ∧ availability m' (GuildLeaveEvent.id ev) = Absent
      ∧ guilds m' !! GuildLeaveEvent.id ev = None
      ∧ children_of (channels m') (GuildLeaveEvent.id ev) = ∅
      ∧ children_of (emojis m') (GuildLeaveEvent.id ev) = ∅
      ∧ children_of (roles m') (GuildLeaveEvent.id ev) = ∅
      ∧ children_of (members m') (GuildLeaveEvent.id ev) = ∅
      ∧ children_of (presences m') (GuildLeaveEvent.id ev) = ∅
      ∧ children_of (voice_states m') (GuildLeaveEvent.id ev) = ∅.
Proof.
  intros Hp m m'. apply truthy_flag in Hp. destruct flag; intros ev Hd.
  - pose proof (on_guild_delete_unavailable fac sh p ev Hp Hd) as Ht.
    split; [exact Ht|]. subst m m'. unfold process. cbn [handler].
    rewrite Ht. cbn [trace fst run foldl step mirror sink].
    split; [done|]. split; [apply availability_unavailable|].
    by destruct w as [[] ?].
  - pose proof (on_guild_delete_leave fac sh p ev Hp Hd) as Ht.
    split; [exact Ht|]. subst m m'. unfold process. cbn [handler].
    rewrite Ht. cbn [trace fst run foldl step mirror sink].
    split; [done|]. split; [apply availability_delete_guild|].
    destruct w as [[] ?]. cbn.
    rewrite lookup_delete_eq. by rewrite !children_of_clear.
Qed.

Lemma on_guild_delete_branches_witness :
  (Fixture.outage1 !! "unavailable" = Some (JBool true)
   ∧ on_guild_delete Fixture.factory 0 Fixture.outage1 =
       ([Cache (set_guild_availability 1 false);
         Dispatch (GuildUnavailable {| GuildUnavailableEvent.id := 1 |})],
        Ok tt))
  ∧ (Fixture.removal1 !! "unavailable" = Some (JBool false)
     ∧ on_guild_delete Fixture.factory 0 Fixture.removal1 =
         ([Cache (delete_guild 1);
           Dispatch (GuildLeave {| GuildLeaveEvent.id := 1 |})], Ok tt)).
Proof.
  split; (split; [reflexivity|]).
  - refine (proj1 (on_guild_delete_branches Fixture.factory 0 Fixture.outage1
                     true empty_world _ {| GuildUnavailableEvent.id := 1 |} _));
      reflexivity.
  - refine (proj1 (on_guild_delete_branches Fixture.factory 0 Fixture.removal1
                     false empty_world _ {| GuildLeaveEvent.id := 1 |} _));
      reflexivity.
Defined.

(** C10.  On a guild-delete payload without an "unavailable" field the
    handler takes the leave branch: it makes the single cache call
    [delete_guild(id)] and dispatches a GuildLeaveEvent, leaving the guild
    absent rather than unavailable; and it does exactly what it does on any
    payload that carries the flag with value false and decodes alike. *)
Theorem on_guild_delete_flag_absent fac sh (p : gmap string JSON) ev w :
  p !! "unavailable" = None →
  deserialize_guild_leave_event fac p = Ok ev →
  let m' := mirror (process fac GUILD_DELETE sh p w) in
  on_guild_delete fac sh p =
    ([Cache (delete_guild (GuildLeaveEvent.id ev)); Dispatch (GuildLeave ev)],
     Ok tt)
  ∧ (∀ p' : gmap string JSON,
       p' !! "unavailable" = Some (JBool false) →
       deserialize_guild_leave_event fac p' =
         deserialize_guild_leave_event fac p →
       on_guild_delete fac sh p' = on_guild_delete fac sh p)
  ∧ sink (process fac GUILD_DELETE sh p w) = sink w ++ [GuildLeave ev]
  ∧ availability m' (GuildLeaveEvent.id ev) = Absent
  ∧ guilds m' !! GuildLeaveEvent.id ev = None
  ∧ GuildLeaveEvent.id ev ∉ unavailable_guilds m'.
Proof.
  intros Hp Hd m'. apply truthy_flag_absent in Hp.
  pose proof (on_guild_delete_leave fac sh p ev Hp Hd) as Ht.
  split; [exact Ht|]. split.
  { intros p' Hp' Hd'. apply truthy_flag in Hp'. rewrite Hd in Hd'.
    by rewrite Ht, (on_guild_delete_leave fac sh p' ev Hp' Hd'). }
  subst m'. unfold process. cbn [handler].
  rewrite Ht. cbn [trace fst run foldl step mirror sink].
  split; [done|]. split; [apply availability_delete_guild|].
  destruct w as [[] ?]. cbn. rewrite lookup_delete_eq. split; [done|].
  intros [_ Hin]%elem_of_difference. by destruct Hin; apply elem_of_singleton.
Qed.

Lemma on_guild_delete_flag_absent_witness :
  Fixture.kicked1 !! "unavailable" = None
  ∧ deserialize_guild_leave_event Fixture.factory Fixture.kicked1 =
      Ok {| GuildLeaveEvent.id := 1 |}
  ∧ on_guild_delete Fixture.factory 0 Fixture.kicked1 =
      ([Cache (delete_guild 1);
        Dispatch (GuildLeave {| GuildLeaveEvent.id := 1 |})], Ok tt).
Proof.
  split; [reflexivity|]. split; [reflexivity|].
  refine (proj1 (on_guild_delete_flag_absent Fixture.factory 0 Fixture.kicked1
                   {| GuildLeaveEvent.id := 1 |} empty_world _ _));
    reflexivity.
Defined.

(** ** Guild create and guild update *)

Lemma availability_update_guild guild f m :
  guilds (f m) = guilds (apply_call (update_guild guild) m) →
  unavailable_guilds (f m) =
    unavailable_guilds (apply_call (update_guild guild) m) →
  guilds (f m) !! g_id guild = Some guild
  ∧ availability (f m) (g_id guild) = Available.
Proof.
  intros Hg Hu. unfold availability. rewrite Hg, Hu. cbn.
  rewrite lookup_insert_eq. split; [done|].
  destruct (decide _) as [Hin|_]; [|done].
  apply elem_of_difference in Hin as [_ Hin].
  by destruct Hin; apply elem_of_singleton.
Qed.

(** C8.  On a guild-create payload the first effect of the handler is
    [update_guild] on the decoded guild, and its last is the dispatch of the
    GuildCreate event; everything between is a cache call.  When the event
    is dispatched, and when the handler is done, the mirror holds the
    decoded guild record and the guild is available, whatever its state
    before. *)
Theorem on_guild_create_marks_available fac sh p ev w :
  deserialize_guild_create_event fac p = Ok ev →
  ∃ rest,
    on_guild_create fac sh p =
      (Cache (update_guild (GuildCreateEvent.guild ev))
       :: map Cache rest ++ [Dispatch (GuildCreate ev)], Ok tt)
    ∧ (let at_dispatch :=
         mirror (run (Cache (update_guild (GuildCreateEvent.guild ev))
                      :: map Cache rest) w) in
       guilds at_dispatch !! g_id (GuildCreateEvent.guild ev) =
         Some (GuildCreateEvent.guild ev)
       ∧ availability at_dispatch (g_id (GuildCreateEvent.guild ev)) =
           Available)
    ∧ (let m' := mirror (process fac GUILD_CREATE sh p w) in
       guilds m' !! g_id (GuildCreateEvent.guild ev) =
         Some (GuildCreateEvent.guild ev)
       ∧ availability m' (g_id (GuildCreateEvent.guild ev)) = Available)
    ∧ sink (process fac GUILD_CREATE sh p w) = sink w ++ [GuildCreate ev].
Proof.
  intros Hd. pose proof (on_guild_create_trace fac sh p ev Hd) as Ht.
  exists (tail (guild_create_calls ev)).
  assert (Cache (update_guild (GuildCreateEvent.guild ev))
          :: map Cache (tail (guild_create_calls ev)) =
          map Cache (guild_create_calls ev)) as Hcalls by done.
  split; [by rewrite Ht, <- Hcalls|].
  assert (∀ m,
    guilds (apply_calls (guild_create_calls ev) m)
      !! g_id (GuildCreateEvent.guild ev) = Some (GuildCreateEvent.guild ev)
    ∧ availability (apply_calls (guild_create_calls ev) m)
        (g_id (GuildCreateEvent.guild ev)) = Available) as Hm.
  { intros m. apply (availability_update_guild _
      (apply_calls (guild_create_calls ev)));
      by rewrite apply_guild_create_calls. }
  rewrite Hcalls.
  rewrite (process_dispatching fac GUILD_CREATE sh p (guild_create_calls ev)
             (GuildCreate ev) w) by (cbn [handler]; by rewrite Ht).
  rewrite mirror_run, cache_calls_Cache. cbn [mirror sink].
  split; [apply Hm|]. split; [apply Hm|done].
Qed.

Lemma on_guild_create_marks_available_witness :
  let w := process Fixture.factory GUILD_DELETE 0 Fixture.outage1 empty_world in
  deserialize_guild_create_event Fixture.factory Fixture.snapshot1 =
    Ok Fixture.snapshot1_event
  ∧ availability (mirror w) 1 = Unavailable
  ∧ availability
      (mirror (process Fixture.factory GUILD_CREATE 0 Fixture.snapshot1 w)) 1 =
    Available.
Proof.
  intros w. split; [reflexivity|]. split; [reflexivity|].
  destruct (on_guild_create_marks_available Fixture.factory 0
              Fixture.snapshot1 Fixture.snapshot1_event w eq_refl)
    as (rest & _ & _ & [_ Ha] & _).
  exact Ha.
Defined.

(** C2.  On a guild-update payload whose decoded roles and emojis are
    scoped to the decoded guild, the cache calls of the handler are
    [update_guild], then [clear_roles] and one [set_role] per decoded role,
    then [clear_emojis] and one [set_emoji] per decoded emoji.  Afterwards
    the channels, members, presences and voice states of every guild are as
    they were, as is the Self-User; the roles and the emojis of the guild
    are exactly the decoded ones; and for every other guild the record, the
    availability, the roles and the emojis are as they were. *)
Theorem on_guild_update_frame fac sh p ev w :
  deserialize_guild_update_event fac p = Ok ev →
  let g := g_id (GuildUpdateEvent.guild ev) in
  scoped g (values (GuildUpdateEvent.roles ev)) →
  scoped g (values (GuildUpdateEvent.emojis ev)) →
  let m := mirror w in
  let m' := mirror (process fac GUILD_UPDATE sh p w) in
  cache_calls (trace (on_guild_update fac sh p)) =
    update_guild (GuildUpdateEvent.guild ev)
    :: (clear_roles g :: map set_role (values (GuildUpdateEvent.roles ev)))
    ++ (clear_emojis g :: map set_emoji (values (GuildUpdateEvent.emojis ev)))
  ∧ channels m' = channels m
  ∧ members m' = members m
  ∧ presences m' = presences m
  ∧ voice_states m' = voice_states m
  ∧ me m' = me m
  ∧ guilds m' !! g = Some (GuildUpdateEvent.guild ev)
  ∧ children_of (roles m') g = batch (values (GuildUpdateEvent.roles ev))
  ∧ children_of (emojis m') g = batch (values (GuildUpdateEvent.emojis ev))
  ∧ ∀ g', g' ≠ g →
      guilds m' !! g' = guilds m !! g'
      ∧ (g' ∈ unavailable_guilds m' ↔ g' ∈ unavailable_guilds m)
      ∧ availability m' g' = availability m g'
      ∧ roles m' !! g' = roles m !! g'
      ∧ emojis m' !! g' = emojis m !! g'.
Proof.
  intros Hd g Hroles Hemojis m m'.
  pose proof (on_guild_update_trace fac sh p ev Hd) as Ht.
  split.
  { rewrite Ht. cbn [trace fst].
    by rewrite cache_calls_app, cache_calls_Cache, app_nil_r. }
  subst m m'.
  rewrite (process_dispatching fac GUILD_UPDATE sh p (guild_update_calls ev)
             (GuildUpdate ev) w) by (cbn [handler]; by rewrite Ht).
  cbn [mirror]. rewrite apply_guild_update_calls. fold g.
  destruct w as [[me0 un0 gs0 ch0 em0 ro0 mb0 pr0 vs0] s0]. cbn.
  repeat (split; [done|]).
  split; [apply lookup_insert_eq|].
  split; [by apply children_of_replace|].
  split; [by apply children_of_replace|].
  intros g' Hne.
  assert (g' ∈ un0 ∖ {[g]} ↔ g' ∈ un0) as Hun.
  { rewrite elem_of_difference, elem_of_singleton. tauto. }
  assert (<[g := GuildUpdateEvent.guild ev]> gs0 !! g' = gs0 !! g') as Hgs
    by (by apply lookup_insert_ne).
  split; [exact Hgs|]. split; [exact Hun|].
  split.
  { unfold availability. cbn. rewrite Hgs.
    destruct (decide (g' ∈ un0 ∖ {[g]})) as [Hin|Hin];
      destruct (decide (g' ∈ un0)) as [Hin0|Hin0]; try done;
      by destruct Hun as [H1 H2]; exfalso; auto. }
  split; by apply lookup_replace_ne.
Qed.

Lemma on_guild_update_frame_witness :
  let w := process Fixture.factory GUILD_CREATE 0 Fixture.snapshot1
             empty_world in
  let w' := process Fixture.factory GUILD_UPDATE 0 Fixture.update1 w in
  deserialize_guild_update_event Fixture.factory Fixture.update1 =
    Ok Fixture.update1_event
  ∧ scoped 1 (values (GuildUpdateEvent.roles Fixture.update1_event))
  ∧ scoped 1 (values (GuildUpdateEvent.emojis Fixture.update1_event))
  ∧ channels (mirror w') = channels (mirror w)
  ∧ voice_states (mirror w') = voice_states (mirror w).
Proof.
  intros w w'.
  assert (scoped 1 (values (GuildUpdateEvent.roles Fixture.update1_event)))
    as Hr by (repeat constructor).
  assert (scoped 1 (values (GuildUpdateEvent.emojis Fixture.update1_event)))
    as He by (repeat constructor).
  split; [reflexivity|]. split; [exact Hr|]. split; [exact He|].
  destruct (on_guild_update_frame Fixture.factory 0 Fixture.update1
              Fixture.update1_event w eq_refl Hr He)
    as (_ & Hch & _ & _ & Hvs & _).
  split; [exact Hch|exact Hvs].
Defined.

(** ** Dispatch comes last *)

(** C6.  For session-ready, guild-create, guild-update and guild-delete,
    either the entity factory raises and the handler has no effect at all,
    or the trace of the handler is a non-empty run of cache calls followed
    by a single dispatch: every cache call precedes the dispatch, nothing
    follows it, and the mirror at the moment of the dispatch is already the
    mirror the handler leaves. *)
Theorem dispatch_follows_mutations fac name sh p :
  mutating name = true →
  (∃ e, handler fac name sh p = ([], Raise e))
  ∨ (∃ calls event,
       calls ≠ []
       ∧ handler fac name sh p = (map Cache calls ++ [Dispatch event], Ok tt)
       ∧ ∀ w,
           mirror (run (map Cache calls) w) = mirror (process fac name sh p w)
           ∧ sink (run (map Cache calls) w) = sink w
           ∧ sink (process fac name sh p w) = sink w ++ [event]).
Proof.
  intros Hmut.
  destruct (decoding fac name sh p) as [[]|e] eqn:Hdec.
  2: { left. exists e. by apply handler_raise. }
  right.
  assert (∀ calls event,
    calls ≠ [] →
    handler fac name sh p = (map Cache calls ++ [Dispatch event], Ok tt) →
    ∃ calls event,
      calls ≠ []
      ∧ handler fac name sh p = (map Cache calls ++ [Dispatch event], Ok tt)
      ∧ ∀ w,
          mirror (run (map Cache calls) w) = mirror (process fac name sh p w)
          ∧ sink (run (map Cache calls) w) = sink w
          ∧ sink (process fac name sh p w) = sink w ++ [event]) as Hgen.
  { intros calls event Hne Hh. exists calls, event.
    split; [done|]. split; [done|]. intros w.
    rewrite (process_dispatching fac name sh p calls event w)
      by (by rewrite Hh).
    rewrite run_split, cache_calls_Cache, dispatched_Cache. cbn.
    by rewrite app_nil_r. }
  destruct name as [| | | | | | | |kind]; try discriminate Hmut;
    cbn [decoding] in Hdec; cbn [handler] in *.
  - destruct (deserialize_ready_event fac sh p) as [ev|] eqn:Hd;
      [|discriminate].
    apply (Hgen [update_me (ReadyEvent.my_user ev);
                 set_initial_unavailable_guilds
                   (keys (ReadyEvent.unavailable_guilds ev))] (Ready ev));
      [done|]. by apply on_ready_trace.
  - destruct (deserialize_guild_create_event fac p) as [ev|] eqn:Hd;
      [|discriminate].
    apply (Hgen (guild_create_calls ev) (GuildCreate ev)); [done|].
    by apply on_guild_create_trace.
  - destruct (deserialize_guild_update_event fac p) as [ev|] eqn:Hd;
      [|discriminate].
    apply (Hgen (guild_update_calls ev) (GuildUpdate ev)); [done|].
    by apply on_guild_update_trace.
  - destruct (truthy (get p "unavailable" (JBool false))) eqn:Hf.
    + destruct (deserialize_guild_unavailable_event fac p) as [ev|] eqn:Hd;
        [|discriminate].
      apply (Hgen [set_guild_availability (GuildUnavailableEvent.id ev) false]
               (GuildUnavailable ev)); [done|].
      by apply on_guild_delete_unavailable.
    + destruct (deserialize_guild_leave_event fac p) as [ev|] eqn:Hd;
        [|discriminate].
      apply (Hgen [delete_guild (GuildLeaveEvent.id ev)] (GuildLeave ev));
        [done|].
      by apply on_guild_delete_leave.
Qed.

Lemma dispatch_follows_mutations_witness :
  mutating GUILD_UPDATE = true
  ∧ ((∃ e, handler Fixture.factory GUILD_UPDATE 0 Fixture.update1 =
             ([], Raise e))
     ∨ (∃ calls event,
          calls ≠ []
          ∧ handler Fixture.factory GUILD_UPDATE 0 Fixture.update1 =
              (map Cache calls ++ [Dispatch event], Ok tt)
          ∧ ∀ w,
              mirror (run (map Cache calls) w) =
                mirror (process Fixture.factory GUILD_UPDATE 0
                          Fixture.update1 w)
              ∧ sink (run (map Cache calls) w) = sink w
              ∧ sink (process Fixture.factory GUILD_UPDATE 0
                        Fixture.update1 w) = sink w ++ [event])).
Proof.
  split; [reflexivity|].
  apply (dispatch_follows_mutations Fixture.factory GUILD_UPDATE 0
           Fixture.update1).
  reflexivity.
Defined.

(** ** Guild-create snapshots *)

(** After a guild-create whose children are scoped to its guild, the
    channels, emojis, roles, members and presences of the guild are exactly
    the decoded ones.  The voice states are not cleared: the decoded ones
    are written over whatever the guild held before. *)
Lemma on_guild_create_children fac sh p ev w :
  deserialize_guild_create_event fac p = Ok ev →
  let g := g_id (GuildCreateEvent.guild ev) in
  scoped g (values (GuildCreateEvent.channels ev)) →
  scoped g (values (GuildCreateEvent.emojis ev)) →
  scoped g (values (GuildCreateEvent.roles ev)) →
  scoped g (values (GuildCreateEvent.members ev)) →
  scoped g (values (GuildCreateEvent.presences ev)) →
  scoped g (values (GuildCreateEvent.voice_states ev)) →
  let m := mirror w in
  let m' := mirror (process fac GUILD_CREATE sh p w) in
  children_of (channels m') g = batch (values (GuildCreateEvent.channels ev))
  ∧ children_of (emojis m') g = batch (values (GuildCreateEvent.emojis ev))
  ∧ children_of (roles m') g = batch (values (GuildCreateEvent.roles ev))
  ∧ children_of (members m') g = batch (values (GuildCreateEvent.members ev))
  ∧ children_of (presences m') g =
      batch (values (GuildCreateEvent.presences ev))
  ∧ children_of (voice_states m') g =
      foldl (fun acc x => <[key_of x := x]> acc)
        (children_of (voice_states m) g)
        (values (GuildCreateEvent.voice_states ev)).
Proof.
  intros Hd g Hch Hem Hro Hmb Hpr Hvs m m'.
  pose proof (on_guild_create_trace fac sh p ev Hd) as Ht.
  subst m m'.
  rewrite (process_dispatching fac GUILD_CREATE sh p (guild_create_calls ev)
             (GuildCreate ev) w) by (cbn [handler]; by rewrite Ht).
  cbn [mirror]. rewrite apply_guild_create_calls. fold g.
  destruct w as [[me0 un0 gs0 ch0 em0 ro0 mb0 pr0 vs0] s0]. cbn.
  repeat (split; [by apply children_of_replace|]).
  exact (children_of_set_all (H:=VoiceState_Child) g _ vs0 Hvs).
Qed.

(** A voice state of the guild that the new snapshot does not mention
    survives the guild-create. *)
Lemma on_guild_create_stale_voice_state fac sh p ev w k v :
  deserialize_guild_create_event fac p = Ok ev →
  let g := g_id (GuildCreateEvent.guild ev) in
  scoped g (values (GuildCreateEvent.voice_states ev)) →
  children_of (voice_states (mirror w)) g !! k = Some v →
  k ∉ map key_of (values (GuildCreateEvent.voice_states ev)) →
  children_of (voice_states (mirror (process fac GUILD_CREATE sh p w))) g !! k
  = Some v.
Proof.
  intros Hd g Hvs Hk Hfresh.
  pose proof (on_guild_create_trace fac sh p ev Hd) as Ht.
  rewrite (process_dispatching fac GUILD_CREATE sh p (guild_create_calls ev)
             (GuildCreate ev) w) by (cbn [handler]; by rewrite Ht).
  cbn [mirror]. rewrite apply_guild_create_calls. fold g.
  destruct w as [[me0 un0 gs0 ch0 em0 ro0 mb0 pr0 vs0] s0]. cbn in Hk |- *.
  exact (children_of_set_all_stale (H:=VoiceState_Child) g _ vs0 k v
           Hvs Hk Hfresh).
Qed.

(** C1, at a failing input.  Two successive guild-create snapshots of guild
    1 are processed from an empty mirror: the first holds channel 10 and the
    voice state of user 7, the second holds channel 11 and no voice state.
    The handler of the second issues a clear for channels, emojis, roles,
    members and presences, and none for voice states.  Afterwards the
    channels of the guild are exactly those of the second snapshot, but the
    voice state of user 7, which the second snapshot does not contain, is
    still in the mirror. *)
Theorem on_guild_create_keeps_stale_voice_state :
  let w1 := process Fixture.factory GUILD_CREATE 0 Fixture.snapshot1
              empty_world in
  let w2 := process Fixture.factory GUILD_CREATE 0 Fixture.snapshot2 w1 in
  deserialize_guild_create_event Fixture.factory Fixture.snapshot1 =
    Ok Fixture.snapshot1_event
  ∧ deserialize_guild_create_event Fixture.factory Fixture.snapshot2 =
      Ok Fixture.snapshot2_event
  ∧ cache_calls (trace (on_guild_create Fixture.factory 0 Fixture.snapshot2)) =
      [update_guild {| g_id := 1; g_name := "guild" |};
       clear_guild_channels 1; set_guild_channel (Fixture.channel 1 11);
       clear_emojis 1; clear_roles 1; clear_members 1; clear_presences 1]
  ∧ children_of (channels (mirror w2)) 1 =
      batch (values (GuildCreateEvent.channels Fixture.snapshot2_event))
  ∧ children_of (channels (mirror w2)) 1 !! 10 = None
  ∧ batch (values (GuildCreateEvent.voice_states Fixture.snapshot2_event))
      !! 7 = None
  ∧ children_of (voice_states (mirror w2)) 1 !! 7 =
      Some (Fixture.voice_state 1 7).
Proof. cbv zeta. repeat split; vm_compute; reflexivity. Qed.

(** ** Every handler at once *)

Lemma delta_handler_raise_or_dispatch fac kind sh p :
  delta_handler fac kind sh p =
  match deserialize_event fac kind p with
  | Ok subject => ([Dispatch (Delta kind subject)], Ok tt)
  | Raise e => ([], Raise e)
  end.
Proof.
  rewrite delta_handler_forward. unfold forward.
  by destruct (deserialize_event fac kind p).
Qed.

(** A handler ends the way its entity-factory call ends: it raises exactly
    when that call raises, with the same exception, and returns normally
    otherwise; the handlers that make no such call never raise. *)
Theorem handler_outcome_is_decoding fac name sh p :
  outcome (handler fac name sh p) = decoding fac name sh p.
Proof.
  destruct (decoding fac name sh p) as [[]|e] eqn:Hdec.
  2: { by rewrite (handler_raise fac name sh p e Hdec). }
  destruct name as [| | | | | | | |kind]; cbn [decoding handler] in *;
    try done.
  - destruct (deserialize_ready_event fac sh p) as [ev|] eqn:Hd;
      [|discriminate]. by rewrite (on_ready_trace fac sh p ev Hd).
  - destruct (deserialize_guild_create_event fac p) as [ev|] eqn:Hd;
      [|discriminate]. by rewrite (on_guild_create_trace fac sh p ev Hd).
  - destruct (deserialize_guild_update_event fac p) as [ev|] eqn:Hd;
      [|discriminate]. by rewrite (on_guild_update_trace fac sh p ev Hd).
  - destruct (truthy (get p "unavailable" (JBool false))) eqn:Hf.
    + destruct (deserialize_guild_unavailable_event fac p) as [ev|] eqn:Hd;
        [|discriminate].
      by rewrite (on_guild_delete_unavailable fac sh p ev Hf Hd).
    + destruct (deserialize_guild_leave_event fac p) as [ev|] eqn:Hd;
        [|discriminate].
      by rewrite (on_guild_delete_leave fac sh p ev Hf Hd).
  - rewrite delta_handler_raise_or_dispatch.
    by destruct (deserialize_event fac kind p).
Qed.

(** The trace of every handler is a run of cache calls followed by at most
    one dispatch.  No event is dispatched exactly when the handler is the
    member-chunk one or its entity-factory call raised; every other handler
    dispatches one event, after all its cache calls. *)
Theorem handler_dispatches_once_at_end fac name sh p :
  ∃ calls events,
    trace (handler fac name sh p) = map Cache calls ++ map Dispatch events
    ∧ (length events ≤ 1)%nat
    ∧ (events = [] ↔
       name = GUILD_MEMBERS_CHUNK ∨ ∃ e, decoding fac name sh p = Raise e).
Proof.
  destruct (decoding fac name sh p) as [[]|e] eqn:Hdec.
  2: { exists [], []. rewrite (handler_raise fac name sh p e Hdec).
       split; [done|]. split; [cbn; lia|]. split; [|done].
       intros _. right. by exists e. }
  assert (∀ calls event,
    trace (handler fac name sh p) = map Cache calls ++ [Dispatch event] →
    name ≠ GUILD_MEMBERS_CHUNK →
    ∃ calls events,
      trace (handler fac name sh p) = map Cache calls ++ map Dispatch events
      ∧ (length events ≤ 1)%nat
      ∧ (events = [] ↔
         name = GUILD_MEMBERS_CHUNK ∨ ∃ e, Ok () = Raise e)) as Hone.
  { intros calls event Ht Hne. exists calls, [event].
    split; [done|]. split; [cbn; lia|]. split; [done|].
    intros [?|[e ?]]; done. }
  destruct name as [| | | | | | | |kind]; cbn [decoding handler] in *.
  - by apply (Hone [] (ConnectedEvent sh)).
  - by apply (Hone [] (DisconnectedEvent sh)).
  - destruct (deserialize_ready_event fac sh p) as [ev|] eqn:Hd;
      [|discriminate].
    apply (Hone [update_me (ReadyEvent.my_user ev);
                 set_initial_unavailable_guilds
                   (keys (ReadyEvent.unavailable_guilds ev))] (Ready ev));
      [|done]. by rewrite (on_ready_trace fac sh p ev Hd).
  - by apply (Hone [] (ResumedEvent sh)).
  - destruct (deserialize_guild_create_event fac p) as [ev|] eqn:Hd;
      [|discriminate].
    apply (Hone (guild_create_calls ev) (GuildCreate ev)); [|done].
    by rewrite (on_guild_create_trace fac sh p ev Hd).
  - destruct (deserialize_guild_update_event fac p) as [ev|] eqn:Hd;
      [|discriminate].
    apply (Hone (guild_update_calls ev) (GuildUpdate ev)); [|done].
    by rewrite (on_guild_update_trace fac sh p ev Hd).
  - destruct (truthy (get p "unavailable" (JBool false))) eqn:Hf.
    + destruct (deserialize_guild_unavailable_event fac p) as [ev|] eqn:Hd;
        [|discriminate].
      apply (Hone [set_guild_availability (GuildUnavailableEvent.id ev) false]
               (GuildUnavailable ev)); [|done].
      by rewrite (on_guild_delete_unavailable fac sh p ev Hf Hd).
    + destruct (deserialize_guild_leave_event fac p) as [ev|] eqn:Hd;
        [|discriminate].
      apply (Hone [delete_guild (GuildLeaveEvent.id ev)] (GuildLeave ev));
        [|done].
      by rewrite (on_guild_delete_leave fac sh p ev Hf Hd).
  - exists [], []. split; [done|]. split; [cbn; lia|]. split; [|done].
    intros _. by left.
  - destruct (deserialize_event fac kind p) as [subject|] eqn:Hd;
      [|discriminate].
    apply (Hone [] (Delta kind subject)); [|done].
    by rewrite delta_handler_raise_or_dispatch, Hd.
Qed.

(** Only session-ready, guild-create, guild-update and guild-delete reach
    the cache: the handler of any other event makes no cache call, whether
    its decoder succeeds or raises, so the mirror is as it was. *)
Theorem other_handlers_make_no_cache_call fac name sh p :
  mutating name = false →
  cache_calls (trace (handler fac name sh p)) = []
  ∧ ∀ w, mirror (process fac name sh p w) = mirror w.
Proof.
  intros Hmut.
  assert (cache_calls (trace (handler fac name sh p)) = []) as Hc.
  { destruct name as [| | | | | | | |kind]; try discriminate Hmut;
      cbn [handler]; try done.
    rewrite delta_handler_raise_or_dispatch.
    by destruct (deserialize_event fac kind p). }
  split; [exact Hc|]. intros w. unfold process. by rewrite mirror_run, Hc.
Qed.

Lemma other_handlers_make_no_cache_call_witness :
  mutating (DELTA message_create) = false
  ∧ mirror (process Fixture.factory (DELTA message_create) 0
              Fixture.new_channel
              (process Fixture.factory GUILD_CREATE 0 Fixture.snapshot1
                 empty_world)) =
    mirror (process Fixture.factory GUILD_CREATE 0 Fixture.snapshot1
              empty_world).
Proof.
  split; [reflexivity|].
  apply (other_handlers_make_no_cache_call Fixture.factory
           (DELTA message_create) 0 Fixture.new_channel).
  reflexivity.
Defined.

(** ** Guild delete, any flag value *)

(** The branch of [on_guild_delete] follows the Python truth value of
    whatever the payload carries under "unavailable", boolean or not: a
    truthy value (a non-zero number, a non-empty string such as "false", a
    non-empty array or object) marks the guild unavailable; a falsy one
    (null, zero, the empty string, array or object) deletes the guild. *)
Theorem on_guild_delete_follows_truthiness fac sh (p : gmap string JSON) v :
  p !! "unavailable" = Some v →
  if truthy v then
    ∀ ev, deserialize_guild_unavailable_event fac p = Ok ev →
      on_guild_delete fac sh p =
        ([Cache (set_guild_availability (GuildUnavailableEvent.id ev) false);
          Dispatch (GuildUnavailable ev)], Ok tt)
  else
    ∀ ev, deserialize_guild_leave_event fac p = Ok ev →
      on_guild_delete fac sh p =
        ([Cache (delete_guild (GuildLeaveEvent.id ev));
          Dispatch (GuildLeave ev)], Ok tt).
Proof.
  intros Hp.
  assert (truthy (get p "unavailable" (JBool false)) = truthy v) as Hf.
  { unfold get. by rewrite Hp. }
  destruct (truthy v); intros ev Hd.
  - by apply on_guild_delete_unavailable.
  - by apply on_guild_delete_leave.
Qed.

Lemma on_guild_delete_follows_truthiness_witness :
  (Samples.flagged (JString "false") !! "unavailable" =
     Some (JString "false")
   ∧ on_guild_delete Fixture.factory 0 (Samples.flagged (JString "false")) =
       ([Cache (set_guild_availability 1 false);
         Dispatch (GuildUnavailable {| GuildUnavailableEvent.id := 1 |})],
        Ok tt))
  ∧ (Samples.flagged JNull !! "unavailable" = Some JNull
     ∧ on_guild_delete Fixture.factory 0 (Samples.flagged JNull) =
         ([Cache (delete_guild 1);
           Dispatch (GuildLeave {| GuildLeaveEvent.id := 1 |})], Ok tt)).
Proof.
  split; (split; [reflexivity|]).
  - refine (on_guild_delete_follows_truthiness Fixture.factory 0
              (Samples.flagged (JString "false")) (JString "false") _
              {| GuildUnavailableEvent.id := 1 |} _); reflexivity.
  - refine (on_guild_delete_follows_truthiness Fixture.factory 0
              (Samples.flagged JNull) JNull _
              {| GuildLeaveEvent.id := 1 |} _); reflexivity.
Defined.

(** [on_guild_delete] consults the decoder of the branch it takes and no
    other: two entity factories that agree on that one decoder for the
    payload give the same trace and the same outcome, however the other
    decoder behaves. *)
Theorem on_guild_delete_consults_one_decoder fac fac' sh p :
  (if truthy (get p "unavailable" (JBool false))
   then deserialize_guild_unavailable_event fac p =
        deserialize_guild_unavailable_event fac' p
   else deserialize_guild_leave_event fac p =
        deserialize_guild_leave_event fac' p) →
  on_guild_delete fac sh p = on_guild_delete fac' sh p.
Proof.
  intros Hagree. unfold on_guild_delete.
  destruct (truthy (get p "unavailable" (JBool false))); by rewrite Hagree.
Qed.

Lemma on_guild_delete_consults_one_decoder_witness :
  (if truthy (get Fixture.outage1 "unavailable" (JBool false))
   then deserialize_guild_unavailable_event Fixture.factory Fixture.outage1 =
        deserialize_guild_unavailable_event Samples.outage_only
          Fixture.outage1
   else deserialize_guild_leave_event Fixture.factory Fixture.outage1 =
        deserialize_guild_leave_event Samples.outage_only Fixture.outage1)
  ∧ on_guild_delete Samples.outage_only 0 Fixture.outage1 =
      ([Cache (set_guild_availability 1 false);
        Dispatch (GuildUnavailable {| GuildUnavailableEvent.id := 1 |})],
       Ok tt).
Proof.
  split; [reflexivity|].
  rewrite <- (on_guild_delete_consults_one_decoder Fixture.factory
                Samples.outage_only 0 Fixture.outage1 eq_refl).
  reflexivity.
Defined.

(** ** What the guild recipes remove *)







(** ** Filing records without assuming their guild *)

Section Filing.

Context `{Child A}.
Implicit Types (c : gmap Z (gmap Z A)) (xs ys : list A) (x : A) (h g k : Z).
Implicit Types (acc : gmap Z A).

Lemma write_all_cons x ys acc :
  write_all (x :: ys) acc = write_all ys (<[key_of x := x]> acc).
Proof. done. Qed.

Lemma set_all_cons x xs c : set_all (x :: xs) c = set_all xs (coll_set x c).
Proof. done. Qed.

(** What a run of sets leaves under guild [h]: untouched if no record of
    the batch carries [h], and otherwise the records that do, written in
    order over what was there. *)
Lemma lookup_set_all h xs c :
  set_all xs c !! h =
  match filed_under h xs with
  | [] => c !! h
  | ys => Some (write_all ys (children_of c h))
  end.
Proof.
  revert c. induction xs as [|x xs IH]; intros c; [done|].
  rewrite set_all_cons, IH. unfold filed_under.
  destruct (decide (guild_id_of x = h)) as [Hx|Hx].
  - rewrite filter_cons_True by exact Hx. subst h.
    rewrite write_all_cons, children_of_set.
    destruct (filter _ xs); [|done].
    unfold coll_set. by rewrite lookup_insert_eq.
  - rewrite filter_cons_False by exact Hx.
    assert (coll_set x c !! h = c !! h) as Hl by (by apply lookup_set_ne).
    unfold children_of. by rewrite Hl.
Qed.

Lemma children_of_set_all_filed h xs c :
  children_of (set_all xs c) h =
  write_all (filed_under h xs) (children_of c h).
Proof.
  unfold children_of at 1. rewrite lookup_set_all.
  by destruct (filed_under h xs).
Qed.

(** Reading back after a run of writes: the last record written under the
    key, or what was there if none was. *)
Lemma lookup_write_all k ys acc :
  write_all ys acc !! k =
  match last (filter (fun y => key_of y = k) ys) with
  | Some y => Some y
  | None => acc !! k
  end.
Proof.
  revert acc. induction ys as [|y ys IH]; intros acc; [done|].
  rewrite write_all_cons, IH.
  destruct (decide (key_of y = k)) as [Hy|Hy].
  - rewrite filter_cons_True by exact Hy. rewrite last_cons.
    destruct (last _); [done|]. subst k. apply lookup_insert_eq.
  - rewrite filter_cons_False by exact Hy.
    destruct (last _); [done|]. by apply lookup_insert_ne.
Qed.

Lemma write_all_idem ys acc : write_all ys (write_all ys acc) = write_all ys acc.
Proof.
  apply map_eq. intros k. rewrite (lookup_write_all k ys (write_all ys acc)).
  rewrite (lookup_write_all k ys acc). by destruct (last _).
Qed.

Lemma set_all_idem xs c : set_all xs (set_all xs c) = set_all xs c.
Proof.
  apply map_eq. intros h. rewrite (lookup_set_all h xs (set_all xs c)).
  rewrite children_of_set_all_filed, (lookup_set_all h xs c).
  destruct (filed_under h xs) as [|y ys] eqn:Hf; [done|].
  by rewrite write_all_idem.
Qed.

Lemma replace_idem g xs c :
  set_all xs (coll_clear g (set_all xs (coll_clear g c))) =
  set_all xs (coll_clear g c).
Proof.
  apply map_eq. intros h.
  rewrite (lookup_set_all h xs (coll_clear g (set_all xs (coll_clear g c)))).
  rewrite (lookup_set_all h xs (coll_clear g c)).
  destruct (decide (h = g)) as [->|Hne].
  - rewrite !children_of_clear. unfold coll_clear.
    by rewrite !lookup_delete_eq.
  - assert (coll_clear g (set_all xs (coll_clear g c)) !! h =
            set_all xs (coll_clear g c) !! h) as Hl
      by (by apply lookup_clear_ne).
    unfold children_of at 1. rewrite Hl.
    fold (children_of (set_all xs (coll_clear g c)) h).
    rewrite children_of_set_all_filed, (lookup_set_all h xs (coll_clear g c)).
    destruct (filed_under h xs) as [|y ys] eqn:Hf; [done|].
    by rewrite write_all_idem.
Qed.

(** A place no record of the batch is filed at reads as before. *)
Lemma lookup_set_all_fresh h k xs c :
  (h, k) ∉ map place xs →
  children_of (set_all xs c) h !! k = children_of c h !! k.
Proof.
  revert c. induction xs as [|x xs IH]; intros c Hfresh; [done|].
  rewrite set_all_cons, IH.
  - destruct (decide (guild_id_of x = h)) as [Hx|Hx].
    + subst h. rewrite children_of_set. apply lookup_insert_ne.
      intros Hk. apply Hfresh. cbn. unfold place at 1. rewrite Hk. by left.
    + unfold children_of. by rewrite lookup_set_ne.
  - intros Hin. apply Hfresh. cbn. by right.
Qed.

(** A record of a batch with distinct places reads back after the run. *)
Lemma lookup_set_all_member x xs c :
  distinct xs → x ∈ xs →
  children_of (set_all xs c) (guild_id_of x) !! key_of x = Some x.
Proof.
  unfold distinct. revert c.
  induction xs as [|x0 xs IH]; intros c Hnd Hin; [by inversion Hin|].
  cbn [map] in Hnd. apply NoDup_cons in Hnd as [Hfresh Hnd].
  rewrite set_all_cons. apply elem_of_cons in Hin as [->|Hin].
  - rewrite lookup_set_all_fresh by exact Hfresh.
    rewrite children_of_set. apply lookup_insert_eq.
  - by apply IH.
Qed.

End Filing.

Lemma children_of_replace_filed `{Child A} g h (xs : list A)
    (c : gmap Z (gmap Z A)) :
  children_of (set_all xs (coll_clear g c)) h =
  write_all (filed_under h xs)
    (if decide (h = g) then ∅ else children_of c h).
Proof.
  rewrite children_of_set_all_filed. f_equal.
  destruct (decide (h = g)) as [->|Hne]; [apply children_of_clear|].
  unfold children_of. by rewrite lookup_clear_ne.
Qed.

Lemma mirror_after_guild_create fac sh p ev w :
  deserialize_guild_create_event fac p = Ok ev →
  mirror (process fac GUILD_CREATE sh p w) =
  apply_calls (guild_create_calls ev) (mirror w).
Proof.
  intros Hd.
  rewrite (process_dispatching fac GUILD_CREATE sh p (guild_create_calls ev)
             (GuildCreate ev) w); [done|].
  cbn [handler]. by rewrite (on_guild_create_trace fac sh p ev Hd).
Qed.

Lemma mirror_after_guild_update fac sh p ev w :
  deserialize_guild_update_event fac p = Ok ev →
  mirror (process fac GUILD_UPDATE sh p w) =
  apply_calls (guild_update_calls ev) (mirror w).
Proof.
  intros Hd.
  rewrite (process_dispatching fac GUILD_UPDATE sh p (guild_update_calls ev)
             (GuildUpdate ev) w); [done|].
  cbn [handler]. by rewrite (on_guild_update_trace fac sh p ev Hd).
Qed.

(** ** Guild create and guild update, whatever the decoder returns *)

(** [on_guild_create] clears under the guild of the event but files each
    child under the guild the child itself carries.  So after the handler,
    for every guild [h], a cleared kind holds the decoded children that
    carry [h], written in order over nothing if [h] is the guild of the
    event and over what [h] held otherwise; the voice states hold the
    decoded ones that carry [h] written over what [h] held, for every
    [h]. *)
Theorem on_guild_create_files_by_record fac sh p ev w h :
  deserialize_guild_create_event fac p = Ok ev →
  let g := g_id (GuildCreateEvent.guild ev) in
  let m := mirror w in
  let m' := mirror (process fac GUILD_CREATE sh p w) in
  children_of (channels m') h =
    write_all (filed_under h (values (GuildCreateEvent.channels ev)))
      (if decide (h = g) then ∅ else children_of (channels m) h)
  ∧ children_of (emojis m') h =
      write_all (filed_under h (values (GuildCreateEvent.emojis ev)))
        (if decide (h = g) then ∅ else children_of (emojis m) h)
  ∧ children_of (roles m') h =
      write_all (filed_under h (values (GuildCreateEvent.roles ev)))
        (if decide (h = g) then ∅ else children_of (roles m) h)
  ∧ children_of (members m') h =
      write_all (filed_under h (values (GuildCreateEvent.members ev)))
        (if decide (h = g) then ∅ else children_of (members m) h)
  ∧ children_of (presences m') h =
      write_all (filed_under h (values (GuildCreateEvent.presences ev)))
        (if decide (h = g) then ∅ else children_of (presences m) h)
  ∧ children_of (voice_states m') h =
      write_all (filed_under h (values (GuildCreateEvent.voice_states ev)))
        (children_of (voice_states m) h).
Proof.
  intros Hd g m m'. subst m m'.
  rewrite (mirror_after_guild_create fac sh p ev w Hd).
  rewrite apply_guild_create_calls. fold g.
  destruct w as [[me0 un0 gs0 ch0 em0 ro0 mb0 pr0 vs0] s0].
  cbn [mirror channels emojis roles members presences voice_states
       with_channels with_emojis with_roles with_members with_presences
       with_voice_states with_guilds compose].
  repeat (split; [apply children_of_replace_filed|]).
  apply children_of_set_all_filed.
Qed.

Lemma on_guild_create_files_by_record_witness :
  let w1 := process Fixture.factory GUILD_CREATE 0 Fixture.snapshot1
              empty_world in
  let w2 := process Fixture.factory GUILD_CREATE 0 Fixture.snapshot2 w1 in
  deserialize_guild_create_event Fixture.factory Fixture.snapshot2 =
    Ok Fixture.snapshot2_event
  ∧ children_of (channels (mirror w2)) 1 =
      write_all
        (filed_under 1
           (values (GuildCreateEvent.channels Fixture.snapshot2_event)))
        (if decide (1 = g_id (GuildCreateEvent.guild Fixture.snapshot2_event))
         then ∅ else children_of (channels (mirror w1)) 1).
Proof.
  intros w1 w2. split; [reflexivity|].
  refine (proj1 (on_guild_create_files_by_record Fixture.factory 0
                   Fixture.snapshot2 Fixture.snapshot2_event w1 1 _)).
  reflexivity.
Defined.

(** [on_guild_update] likewise: for every guild [h], the roles and the
    emojis hold the decoded ones that carry [h], written over nothing if
    [h] is the guild of the event and over what [h] held otherwise.  A
    decoded role that carries another guild is thus added to that guild,
    whose own roles are not cleared. *)
Theorem on_guild_update_files_by_record fac sh p ev w h :
  deserialize_guild_update_event fac p = Ok ev →
  let g := g_id (GuildUpdateEvent.guild ev) in
  let m := mirror w in
  let m' := mirror (process fac GUILD_UPDATE sh p w) in
  children_of (roles m') h =
    write_all (filed_under h (values (GuildUpdateEvent.roles ev)))
      (if decide (h = g) then ∅ else children_of (roles m) h)
  ∧ children_of (emojis m') h =
      write_all (filed_under h (values (GuildUpdateEvent.emojis ev)))
        (if decide (h = g) then ∅ else children_of (emojis m) h).
Proof.
  intros Hd g m m'. subst m m'.
  rewrite (mirror_after_guild_update fac sh p ev w Hd).
  rewrite apply_guild_update_calls. fold g.
  destruct w as [[me0 un0 gs0 ch0 em0 ro0 mb0 pr0 vs0] s0].
  cbn [mirror emojis roles with_emojis with_roles with_guilds compose].
  split; apply children_of_replace_filed.
Qed.

Lemma on_guild_update_files_by_record_witness :
  let w := process Samples.stray GUILD_UPDATE 0 Fixture.update1 empty_world in
  deserialize_guild_update_event Samples.stray Fixture.update1 =
    Ok Samples.stray_update
  ∧ children_of (roles (mirror w)) 2 !! 20 = Some (Fixture.role 2 20)
  ∧ children_of (roles (mirror w)) 1 = ∅.
Proof.
  intros w. split; [reflexivity|].
  pose proof (λ h, proj1 (on_guild_update_files_by_record Samples.stray 0
                Fixture.update1 Samples.stray_update empty_world h eq_refl))
    as Hroles.
  split.
  - unfold w. rewrite (Hroles 2). reflexivity.
  - unfold w. rewrite (Hroles 1). reflexivity.
Defined.

(** ** Reading a snapshot back *)

(** Every child of a decoded guild-create can be looked up afterwards under
    the guild and identity it carries, for each of the six kinds whose
    decoded batch has no two records at the same place. *)
Theorem on_guild_create_reads_back fac sh p ev w :
  deserialize_guild_create_event fac p = Ok ev →
  let m' := mirror (process fac GUILD_CREATE sh p w) in
  (distinct (values (GuildCreateEvent.channels ev)) →
   ∀ x, x ∈ values (GuildCreateEvent.channels ev) →
     children_of (channels m') (guild_id_of x) !! key_of x = Some x)
  ∧ (distinct (values (GuildCreateEvent.emojis ev)) →
     ∀ x, x ∈ values (GuildCreateEvent.emojis ev) →
       children_of (emojis m') (guild_id_of x) !! key_of x = Some x)
  ∧ (distinct (values (GuildCreateEvent.roles ev)) →
     ∀ x, x ∈ values (GuildCreateEvent.roles ev) →
       children_of (roles m') (guild_id_of x) !! key_of x = Some x)
  ∧ (distinct (values (GuildCreateEvent.members ev)) →
     ∀ x, x ∈ values (GuildCreateEvent.members ev) →
       children_of (members m') (guild_id_of x) !! key_of x = Some x)
  ∧ (distinct (values (GuildCreateEvent.presences ev)) →
     ∀ x, x ∈ values (GuildCreateEvent.presences ev) →
       children_of (presences m') (guild_id_of x) !! key_of x = Some x)
  ∧ (distinct (values (GuildCreateEvent.voice_states ev)) →
     ∀ x, x ∈ values (GuildCreateEvent.voice_states ev) →
       children_of (voice_states m') (guild_id_of x) !! key_of x = Some x).
Proof.
  intros Hd m'. subst m'.
  rewrite (mirror_after_guild_create fac sh p ev w Hd).
  rewrite apply_guild_create_calls.
  destruct w as [[me0 un0 gs0 ch0 em0 ro0 mb0 pr0 vs0] s0].
  cbn [mirror channels emojis roles members presences voice_states
       with_channels with_emojis with_roles with_members with_presences
       with_voice_states with_guilds compose].
  repeat split; intros Hnd x Hx; by apply lookup_set_all_member.
Qed.

Lemma on_guild_create_reads_back_witness :
  deserialize_guild_create_event Fixture.factory Fixture.snapshot1 =
    Ok Fixture.snapshot1_event
  ∧ distinct (values (GuildCreateEvent.voice_states Fixture.snapshot1_event))
  ∧ Fixture.voice_state 1 7
      ∈ values (GuildCreateEvent.voice_states Fixture.snapshot1_event)
  ∧ children_of
      (voice_states
         (mirror (process Fixture.factory GUILD_CREATE 0 Fixture.snapshot1
                    empty_world))) 1 !! 7 = Some (Fixture.voice_state 1 7).
Proof.
  assert (distinct
            (values (GuildCreateEvent.voice_states Fixture.snapshot1_event)))
    as Hnd.
  { unfold distinct. cbn. apply NoDup_singleton. }
  assert (Fixture.voice_state 1 7
            ∈ values (GuildCreateEvent.voice_states Fixture.snapshot1_event))
    as Hin.
  { cbn. by left. }
  split; [reflexivity|]. split; [exact Hnd|]. split; [exact Hin|].
  destruct (on_guild_create_reads_back Fixture.factory 0 Fixture.snapshot1
              Fixture.snapshot1_event empty_world eq_refl)
    as (_ & _ & _ & _ & _ & Hvs).
  exact (Hvs Hnd (Fixture.voice_state 1 7) Hin).
Defined.

(** ** Replaying a payload *)

Lemma difference_twice (u : gset Z) g : u ∖ {[g]} ∖ {[g]} = u ∖ {[g]}.
Proof.
  apply set_eq. intros x. rewrite !elem_of_difference. tauto.
Qed.

(** Two mirrors with the same fields are the same mirror. *)
Lemma mirror_eq m1 m2 :
  me m1 = me m2 →
  unavailable_guilds m1 = unavailable_guilds m2 →
  guilds m1 = guilds m2 →
  channels m1 = channels m2 →
  emojis m1 = emojis m2 →
  roles m1 = roles m2 →
  members m1 = members m2 →
  presences m1 = presences m2 →
  voice_states m1 = voice_states m2 →
  m1 = m2.
Proof. destruct m1, m2. cbn. by intros -> -> -> -> -> -> -> -> ->. Qed.

Ltac project_fields :=
  cbn [me unavailable_guilds guilds channels emojis roles members presences
       voice_states with_me with_guilds with_channels with_emojis with_roles
       with_members with_presences with_voice_states compose].

(** Processing the same decoded guild-create twice leaves the mirror that
    processing it once leaves; the sink receives the event twice. *)
Theorem on_guild_create_replay fac sh p ev w :
  deserialize_guild_create_event fac p = Ok ev →
  let once := process fac GUILD_CREATE sh p w in
  let twice := process fac GUILD_CREATE sh p once in
  mirror twice = mirror once
  ∧ sink twice = sink w ++ [GuildCreate ev; GuildCreate ev].
Proof.
  intros Hd once twice. subst once twice. split.
  - rewrite !(mirror_after_guild_create fac sh p ev _ Hd).
    rewrite !apply_guild_create_calls.
    apply mirror_eq; project_fields; try done.
    + apply difference_twice.
    + apply insert_insert_eq.
    + apply replace_idem.
    + apply replace_idem.
    + apply replace_idem.
    + apply replace_idem.
    + apply replace_idem.
    + apply set_all_idem.
  - rewrite !(process_dispatching fac GUILD_CREATE sh p (guild_create_calls ev)
                (GuildCreate ev))
      by (cbn [handler]; by rewrite (on_guild_create_trace fac sh p ev Hd)).
    cbn [sink]. by rewrite <- app_assoc.
Qed.

Lemma on_guild_create_replay_witness :
  let once := process Fixture.factory GUILD_CREATE 0 Fixture.snapshot1
                empty_world in
  deserialize_guild_create_event Fixture.factory Fixture.snapshot1 =
    Ok Fixture.snapshot1_event
  ∧ mirror (process Fixture.factory GUILD_CREATE 0 Fixture.snapshot1 once) =
    mirror once.
Proof.
  intros once. split; [reflexivity|].
  refine (proj1 (on_guild_create_replay Fixture.factory 0 Fixture.snapshot1
                   Fixture.snapshot1_event empty_world _)).
  reflexivity.
Defined.

(** Processing the same decoded guild-update twice leaves the mirror that
    processing it once leaves. *)
Theorem on_guild_update_replay fac sh p ev w :
  deserialize_guild_update_event fac p = Ok ev →
  let once := process fac GUILD_UPDATE sh p w in
  let twice := process fac GUILD_UPDATE sh p once in
  mirror twice = mirror once
  ∧ sink twice = sink w ++ [GuildUpdate ev; GuildUpdate ev].
Proof.
  intros Hd once twice. subst once twice. split.
  - rewrite !(mirror_after_guild_update fac sh p ev _ Hd).
    rewrite !apply_guild_update_calls.
    apply mirror_eq; project_fields; try done.
    + apply difference_twice.
    + apply insert_insert_eq.
    + apply replace_idem.
    + apply replace_idem.
  - rewrite !(process_dispatching fac GUILD_UPDATE sh p (guild_update_calls ev)
                (GuildUpdate ev))
      by (cbn [handler]; by rewrite (on_guild_update_trace fac sh p ev Hd)).
    cbn [sink]. by rewrite <- app_assoc.
Qed.

Lemma on_guild_update_replay_witness :
  let once := process Fixture.factory GUILD_UPDATE 0 Fixture.update1
                empty_world in
  deserialize_guild_update_event Fixture.factory Fixture.update1 =
    Ok Fixture.update1_event
  ∧ mirror (process Fixture.factory GUILD_UPDATE 0 Fixture.update1 once) =
    mirror once.
Proof.
  intros once. split; [reflexivity|].
  refine (proj1 (on_guild_update_replay Fixture.factory 0 Fixture.update1
                   Fixture.update1_event empty_world _)).
  reflexivity.
Defined.

(** ** Witnesses for the snapshot lemmas *)

Lemma on_guild_create_children_witness :
  deserialize_guild_create_event Fixture.factory Fixture.snapshot2 =
    Ok Fixture.snapshot2_event
  ∧ scoped 1 (values (GuildCreateEvent.channels Fixture.snapshot2_event))
  ∧ children_of
      (channels
         (mirror (process Fixture.factory GUILD_CREATE 0 Fixture.snapshot2
                    (process Fixture.factory GUILD_CREATE 0 Fixture.snapshot1
                       empty_world)))) 1 =
    batch (values (GuildCreateEvent.channels Fixture.snapshot2_event)).
Proof.
  assert (scoped 1 (values (GuildCreateEvent.channels Fixture.snapshot2_event)))
    as Hch by (repeat constructor).
  split; [reflexivity|]. split; [exact Hch|].
  refine (proj1 (on_guild_create_children Fixture.factory 0 Fixture.snapshot2
                   Fixture.snapshot2_event _ eq_refl Hch _ _ _ _ _));
    constructor.
Defined.

Lemma on_guild_create_stale_voice_state_witness :
  let w1 := process Fixture.factory GUILD_CREATE 0 Fixture.snapshot1
              empty_world in
  deserialize_guild_create_event Fixture.factory Fixture.snapshot2 =
    Ok Fixture.snapshot2_event
  ∧ children_of (voice_states (mirror w1)) 1 !! 7 =
      Some (Fixture.voice_state 1 7)
  ∧ children_of
      (voice_states
         (mirror (process Fixture.factory GUILD_CREATE 0 Fixture.snapshot2
                    w1))) 1 !! 7 = Some (Fixture.voice_state 1 7).
Proof.
  intros w1. split; [reflexivity|]. split; [reflexivity|].
  refine (on_guild_create_stale_voice_state Fixture.factory 0
            Fixture.snapshot2 Fixture.snapshot2_event w1 7
            (Fixture.voice_state 1 7) eq_refl _ _ _).
  - constructor.
  - reflexivity.
  - cbn. apply not_elem_of_nil.
Defined.

(** ** Ready again, and update against create *)

(** A later ready overrides an earlier one: after two decoded ready
    payloads the mirror is the one the second alone would have left, since
    the handler always sets both the Self-User and the Unavailable-Guild
    Set; the sink receives both events, in order. *)
Theorem on_ready_last_wins fac sh1 p1 ev1 sh2 p2 ev2 w :
  deserialize_ready_event fac sh1 p1 = Ok ev1 →
  deserialize_ready_event fac sh2 p2 = Ok ev2 →
  mirror (process fac READY sh2 p2 (process fac READY sh1 p1 w)) =
    mirror (process fac READY sh2 p2 w)
  ∧ sink (process fac READY sh2 p2 (process fac READY sh1 p1 w)) =
      sink w ++ [Ready ev1; Ready ev2].
Proof.
  intros Hd1 Hd2. unfold process. cbn [handler].
  rewrite (on_ready_trace fac sh1 p1 ev1 Hd1),
    (on_ready_trace fac sh2 p2 ev2 Hd2).
  destruct w as [[me0 un0 gs0 ch0 em0 ro0 mb0 pr0 vs0] s0].
  cbn. split; [done|]. by rewrite <- app_assoc.
Qed.

Lemma on_ready_last_wins_witness :
  deserialize_ready_event Fixture.factory 0 Fixture.ready1 =
    Ok Fixture.ready1_event
  ∧ mirror (process Fixture.factory READY 0 Fixture.ready1
              (process Fixture.factory READY 0 Fixture.ready1 empty_world)) =
    mirror (process Fixture.factory READY 0 Fixture.ready1 empty_world).
Proof.
  split; [reflexivity|].
  refine (proj1 (on_ready_last_wins Fixture.factory 0 Fixture.ready1
                   Fixture.ready1_event 0 Fixture.ready1
                   Fixture.ready1_event empty_world _ _)); reflexivity.
Defined.

(** [on_guild_update] replaces roles before emojis, [on_guild_create]
    emojis before roles; the order does not show.  From the same mirror, a
    guild-update leaves the guild records, the Unavailable-Guild Set, the
    roles and the emojis exactly as a guild-create carrying the same guild,
    roles and emojis leaves them. *)
Theorem on_guild_update_agrees_with_create fac sh p p' evu evc w :
  deserialize_guild_update_event fac p = Ok evu →
  deserialize_guild_create_event fac p' = Ok evc →
  GuildCreateEvent.guild evc = GuildUpdateEvent.guild evu →
  GuildCreateEvent.roles evc = GuildUpdateEvent.roles evu →
  GuildCreateEvent.emojis evc = GuildUpdateEvent.emojis evu →
  let mu := mirror (process fac GUILD_UPDATE sh p w) in
  let mc := mirror (process fac GUILD_CREATE sh p' w) in
  guilds mu = guilds mc
  ∧ unavailable_guilds mu = unavailable_guilds mc
  ∧ roles mu = roles mc
  ∧ emojis mu = emojis mc.
Proof.
  intros Hdu Hdc Hg Hr He mu mc. subst mu mc.
  rewrite (mirror_after_guild_update fac sh p evu w Hdu).
  rewrite (mirror_after_guild_create fac sh p' evc w Hdc).
  rewrite apply_guild_update_calls, apply_guild_create_calls.
  rewrite Hg, Hr, He. by destruct (mirror w).
Qed.

Lemma on_guild_update_agrees_with_create_witness :
  let evc :=
    {| GuildCreateEvent.guild := {| g_id := 1; g_name := "renamed" |};
       GuildCreateEvent.channels := [];
       GuildCreateEvent.emojis := [(30, Fixture.emoji 1 30)];
       GuildCreateEvent.roles :=
         [(20, Fixture.role 1 20); (21, Fixture.role 1 21)];
       GuildCreateEvent.members := [];
       GuildCreateEvent.presences := [];
       GuildCreateEvent.voice_states := [] |} in
  let fac :=
    {| deserialize_ready_event := Fixture.ready;
       deserialize_guild_create_event := fun _ => Ok evc;
       deserialize_guild_update_event := Fixture.guild_update;
       deserialize_guild_unavailable_event := Fixture.guild_unavailable;
       deserialize_guild_leave_event := Fixture.guild_leave;
       deserialize_event := Fixture.delta |} in
  deserialize_guild_update_event fac Fixture.update1 = Ok Fixture.update1_event
  ∧ roles (mirror (process fac GUILD_UPDATE 0 Fixture.update1 empty_world)) =
    roles (mirror (process fac GUILD_CREATE 0 Fixture.update1 empty_world)).
Proof.
  intros evc fac. split; [reflexivity|].
  refine (proj1 (proj2 (proj2
    (on_guild_update_agrees_with_create fac 0 Fixture.update1 Fixture.update1
       Fixture.update1_event evc empty_world _ _ _ _ _))));
    reflexivity.
Defined.
